(** * docker-notify-ts: update detection, state store and notification dispatch

    A shallow embedding of the TypeScript sources
    ([src/index.ts], [src/dockerApi.ts], [src/cache.ts], [src/schema.ts],
    [src/actions/index.ts], [src/actions/webhook.ts], [src/actions/mail.ts])
    together with the properties the specification states about them.

    Asynchronous functions are modelled in a state-and-exception monad over a
    [World] that records the file system, the logger output, the network
    requests that were issued and the SMTP transporter cache.  The behaviour of
    the outside world (HTTP responses, SMTP, [Date.parse], [JSON.parse],
    [JSON.stringify]) is a parameter, collected in the record [Platform].

    Values are modelled as they are at run time, not as their TypeScript types
    promise: a property read on a configuration object also finds the names
    inherited from [Object.prototype], [JSON.parse] of the state file may give
    a value that is not a mapping, and [mkdir] and [writeFile] may fail. *)

From Stdlib Require Import ZArith Ascii Lia Bool.
From stdpp Require Import gmap strings list pretty.

Local Open Scope Z_scope.
#[local] Set Warnings "-register-all,-uniform-inheritance".

(** ** ECMAScript string primitives used by the sources *)

Module JS.

(** Truthiness of a value of type [string | undefined]: only a present,
    non-empty string is truthy. *)
Definition truthy (s : option string) : bool :=
  match s with
  | Some (String _ _) => true
  | _ => false
  end.

Definition no_char (c : ascii) (s : string) : Prop :=
  c ∉ String.list_ascii_of_string s.

(** [s.split(c)] for a one-character separator. The result is never empty:
    ["".split("/")] is [[""]]. *)
Fixpoint String_split (sep : ascii) (s : string) : list string :=
  match s with
  | EmptyString => [EmptyString]
  | String c s' =>
      if Ascii.eqb c sep then EmptyString :: String_split sep s'
      else match String_split sep s' with
           | [] => [String c EmptyString]
           | p :: ps => String c p :: ps
           end
  end.

Fixpoint startsWith (pat s : string) : bool :=
  match pat, s with
  | EmptyString, _ => true
  | String a pat', String b s' => Ascii.eqb a b && startsWith pat' s'
  | String _ _, EmptyString => false
  end.

Fixpoint drop (n : nat) (s : string) : string :=
  match n, s with
  | O, _ => s
  | S n', String _ s' => drop n' s'
  | S _, EmptyString => EmptyString
  end.

(** First occurrence of [pat] in [s]: the text before it and the text after
    it, or [None] when [pat] does not occur ([s.indexOf(pat) === -1]). *)
Fixpoint String_find (pat s : string) : option (string * string) :=
  if startsWith pat s then Some (EmptyString, drop (String.length pat) s)
  else match s with
       | EmptyString => None
       | String c s' =>
           match String_find pat s' with
           | Some (before, after) => Some (String c before, after)
           | None => None
           end
       end.

(** The abstract operation GetSubstitution of ECMA-262 for a string pattern
    (no capture groups): in the replacement template, [$$] stands for a
    dollar sign, [$&] for the matched text, [$`] for the text before the
    match and [$'] for the text after it; every other character, and a
    dollar sign followed by anything else, is copied. *)
Fixpoint GetSubstitution (matched before after template : string) : string :=
  match template with
  | EmptyString => EmptyString
  | String "$" (String "$" t) =>
      String "$" (GetSubstitution matched before after t)
  | String "$" (String "&" t) =>
      matched +:+ GetSubstitution matched before after t
  | String "$" (String "`" t) =>
      before +:+ GetSubstitution matched before after t
  | String "$" (String "'" t) =>
      after +:+ GetSubstitution matched before after t
  | String c t => String c (GetSubstitution matched before after t)
  end.

(** [s.replace(pat, replacement)] with a string pattern: only the first
    occurrence is replaced, by the expansion of the replacement template. *)
Definition String_replace (pat replacement s : string) : string :=
  match String_find pat s with
  | None => s
  | Some (before, after) =>
      before +:+ GetSubstitution pat before after replacement +:+ after
  end.

Definition Ascii_toLowerCase (c : ascii) : ascii :=
  let n := nat_of_ascii c in
  if ((65 <=? n) && (n <=? 90))%nat then ascii_of_nat (n + 32) else c.

(** [s.toLowerCase()], on the ASCII letters. *)
Fixpoint String_toLowerCase (s : string) : string :=
  match s with
  | EmptyString => EmptyString
  | String c s' => String (Ascii_toLowerCase c) (String_toLowerCase s')
  end.

(** A JavaScript number that is either an integer or [NaN]
    ([None]); [a < b] is false as soon as one side is [NaN]. *)
Definition Number_lt (a b : option Z) : bool :=
  match a, b with
  | Some x, Some y => x <? y
  | _, _ => false
  end.

(** [Math.ceil(a / b)] for an integer [a] and a positive integer [b]. *)
Definition Math_ceil_div (a b : Z) : Z := - ((- a) / b).

(** The properties every plain object inherits from [Object.prototype]. *)
Definition Object_prototype_names : list string :=
  ["constructor"; "__defineGetter__"; "__defineSetter__"; "hasOwnProperty";
   "__lookupGetter__"; "__lookupSetter__"; "isPrototypeOf"; "propertyIsEnumerable";
   "toString"; "valueOf"; "__proto__"; "toLocaleString"].

(** What [obj[key]] evaluates to on a plain object whose own members have
    type [A]: an own member; or, for a name of [Object.prototype] that the
    object does not define itself, the inherited value (a function, or the
    prototype object for [__proto__]), which is truthy, is not [undefined]
    and has none of the fields of an [A]; or [undefined]. *)
Inductive Property (A : Type) :=
| Own (a : A)
| Inherited
| Undefined.
Arguments Own {A} a.
Arguments Inherited {A}.
Arguments Undefined {A}.

Definition Object_get {A} (obj : gmap string A) (key : string) : Property A :=
  match obj !! key with
  | Some a => Own a
  | None =>
      if bool_decide (key ∈ Object_prototype_names) then Inherited else Undefined
  end.

(** [obj?.[key]] *)
Definition Optional_get {A} (obj : option (gmap string A)) (key : string) : Property A :=
  match obj with
  | Some members => Object_get members key
  | None => Undefined
  end.

(** [value.field] on the result of a lookup that is not [undefined]: an
    inherited value has no such field. *)
Definition Property_field {A B} (value : Property A) (field : A -> B) : option B :=
  match value with
  | Own a => Some (field a)
  | _ => None
  end.

End JS.

Import JS.

(** ** Data model ([src/schema.ts]) *)

Record ParsedImage := {
  image_user : string;
  image_name : string;
  image_tag : option string;
}.

Record Action := {
  action_type : string;
  action_instance : string;
  action_recipient : option string;
}.

Record NotifyService := {
  service_image : string;
  service_actions : list Action;
}.

Record ParsedNotifyService := {
  job_image : ParsedImage;
  job_originalImage : string;
  job_actions : list Action;
}.

Record CacheEntry := {
  entry_user : string;
  entry_name : string;
  entry_lastUpdated : string;
  entry_tag : option string;
}.

(** What [JSON.parse(data) as CacheData] is at run time; the cast checks
    nothing. Of the members of an object the checks read whether they are
    truthy and the text of their [lastUpdated], which is what an entry
    records. *)
Inductive CacheData :=
| Mapping (entries : gmap string CacheEntry)   (* an object *)
| JsonNull                                      (* [null] *)
| JsonScalar.                                   (* a number, a string, a boolean or an array *)

Coercion Mapping : gmap >-> CacheData.

(** [{}] *)
#[global] Instance CacheData_empty : Empty CacheData := Mapping ∅.

(** The entries a value holds: those of an object, none otherwise. *)
Definition entriesOf (cache : CacheData) : gmap string CacheEntry :=
  match cache with
  | Mapping entries => entries
  | _ => ∅
  end.

Record RepositoryCheckResult := {
  result_lastUpdated : string;
  result_name : string;
  result_user : string;
  result_tag : option string;
  result_updated : bool;
  result_job : ParsedNotifyService;
}.

Record UpdateInfo := {
  imageName : string;
  imageUrl : string;
  info_lastUpdated : string;
}.

(** ** Image strings ([src/index.ts]) *)

Definition parseImageString (imageString : string) : ParsedImage :=
  let parts := String_split "/" imageString in
  let user :=
    if (1 <? length parts)%nat then default EmptyString (parts !! 0%nat)
    else "library" in
  let nameWithTag :=
    if (1 <? length parts)%nat then default EmptyString (parts !! 1%nat)
    else default EmptyString (parts !! 0%nat) in
  let tagParts := String_split ":" nameWithTag in
  let name := default EmptyString (tagParts !! 0%nat) in
  let tag := if (1 <? length tagParts)%nat then tagParts !! 1%nat else None in
  {| image_user := user; image_name := name; image_tag := tag |}.

Definition getCacheKey (image : ParsedImage) : string :=
  let key := image_user image +:+ "/" +:+ image_name image in
  if truthy (image_tag image)
  then key +:+ ":" +:+ default EmptyString (image_tag image)
  else key.

Definition getImageDisplayName (image : ParsedImage) : string :=
  let displayName :=
    if String.eqb (image_user image) "library" then image_name image
    else image_user image +:+ "/" +:+ image_name image in
  if truthy (image_tag image)
  then displayName +:+ ":" +:+ default EmptyString (image_tag image)
  else displayName.

Definition getDockerHubUrl (image : ParsedImage) : string :=
  let baseName :=
    if String.eqb (image_user image) "library" then "_/" +:+ image_name image
    else image_user image +:+ "/" +:+ image_name image in
  "https://hub.docker.com/r/" +:+ baseName +:+ "/tags".

(** ** Registry, SMTP and webhook configuration ([src/schema.ts]) *)

(** A JSON value, as [z.unknown()] admits it in a webhook body. Object members
    are kept in the order [Object.entries] enumerates them. *)
Inductive json :=
| JNull
| JBool (b : bool)
| JNum (n : Z)
| JStr (s : string)
| JArr (items : list json)
| JObj (members : list (string * json)).

Inductive HttpMethod := POST | GET | PUT | DELETE.

(** [httpHeaders]: a record of strings, an array, a string or null. *)
Inductive HttpHeaders :=
| HeadersRecord (h : list (string * string))
| HeadersArray (items : list json)
| HeadersString (s : string)
| HeadersNull.

Record WebhookConfig := {
  reqUrl : string;
  httpMethod : HttpMethod;
  httpHeaders : HttpHeaders;
  httpBody : option json;   (* [None] is [undefined] *)
}.

Record SmtpServerConfig := {
  smtp_host : string;
  smtp_port : Z;
  smtp_secure : bool;
  sendername : string;
  senderadress : string;
  smtp_username : option string;
  smtp_password : option string;
}.

(** The fields the mail handler reads from the value it looked up under the
    instance name; [None] is [undefined]. *)
Record SmtpFields := {
  field_host : option string;
  field_port : option Z;
  field_secure : option bool;
  field_sendername : option string;
  field_senderadress : option string;
  field_username : option string;
  field_password : option string;
}.

(** A server configuration has all of them, as the schema obliges. *)
Definition fieldsOf (smtpConfig : SmtpServerConfig) : SmtpFields :=
  {| field_host := Some (smtp_host smtpConfig);
     field_port := Some (smtp_port smtpConfig);
     field_secure := Some (smtp_secure smtpConfig);
     field_sendername := Some (sendername smtpConfig);
     field_senderadress := Some (senderadress smtpConfig);
     field_username := smtp_username smtpConfig;
     field_password := smtp_password smtpConfig |}.

Coercion fieldsOf : SmtpServerConfig >-> SmtpFields.

(** A value inherited from [Object.prototype] has none. *)
Definition noFields : SmtpFields :=
  {| field_host := None; field_port := None; field_secure := None;
     field_sendername := None; field_senderadress := None;
     field_username := None; field_password := None |}.

Definition smtpFieldsOf (value : Property SmtpServerConfig) : SmtpFields :=
  match value with
  | Own smtpConfig => fieldsOf smtpConfig
  | _ => noFields
  end.

(** The maps of backend instances are plain objects keyed by instance name;
    they are read with [Optional_get]. *)
Record Config := {
  dockerHubUsername : option string;
  dockerHubPassword : option string;
  checkInterval : Z;
  notifyServices : list NotifyService;
  smtpServer : option (gmap string SmtpServerConfig);
  webHooks : option (gmap string WebhookConfig);
}.

(** ** Registry responses ([src/dockerApi.ts]) *)

Record RepositoryInfo := {
  repo_user : string;
  repo_name : string;
  repo_last_updated : string;
}.

Record TagInfo := {
  tag_name : string;
  tag_last_updated : string;
}.

Record TagsResponse := {
  count : Z;
  results : list TagInfo;
}.

(** ** Effects *)

(** What a rejected promise or a [throw] carries. *)
Inductive JsError :=
| HTTPError (statusCode : Z)        (* got: the response status is not 2xx/3xx *)
| RequestError (code : string)      (* got: the request itself failed *)
| ErrnoException (code : string)    (* node:fs *)
| SyntaxError                       (* JSON.parse *)
| TypeError (message : string)
| Error (message : string).

Inductive result (A : Type) :=
| Ok (a : A)
| Throw (e : JsError).
Arguments Ok {A} a.
Arguments Throw {A} e.

Definition is_ok {A} (r : result A) : bool :=
  match r with Ok _ => true | Throw _ => false end.

(** The one file the state store uses, and the directory that holds it.
    [mkdirError] and [writeFileError] are the error codes ([EACCES], [EROFS],
    [ENOSPC], ...) with which the system refuses to create the directory and
    to write the file, if it does. *)
Record FileSystem := {
  dirExists : bool;
  file : option string;
  mkdirError : option string;
  writeFileError : option string;
}.

Inductive LogLevel := Info | Warn | LError.

Record LogEntry := {
  level : LogLevel;
  msg : string;
}.

Record WebhookRequest := {
  hook_url : string;
  hook_method : HttpMethod;
  hook_headers : list (string * string);
  hook_json : option json;
  hook_body : option string;
}.

Record MailOptions := {
  mail_from : string;
  mail_to : option string;
  mail_subject : string;
  mail_text : string;
}.

(** A nodemailer transport, identified by the options it was created from;
    [None] is an option that is [undefined]. *)
Record Transporter := {
  transport_pool : bool;
  transport_host : option string;
  transport_port : option Z;
  transport_secure : option bool;
  transport_auth : option (string * string);
}.

(** Outgoing traffic, in the order it was issued. *)
Inductive NetEvent :=
| HttpGet (url : string) (headers : list (string * string))
| HttpPostLogin (url username password : string)
| HttpHook (req : WebhookRequest)
| HttpHookUndefined   (* [got(undefined, { method: undefined, headers: {} })] *)
| SmtpVerify (t : Transporter)
| SmtpSend (t : Transporter) (m : MailOptions).

Record World := {
  fs : FileSystem;
  log : list LogEntry;
  net : list NetEvent;
  transporterCache : gmap string Transporter;
}.

Definition M (A : Type) : Type := World -> result A * World.

Definition ret {A} (a : A) : M A := fun w => (Ok a, w).

Definition throw {A} (e : JsError) : M A := fun w => (Throw e, w).

Definition bind {A B} (m : M A) (k : A -> M B) : M B :=
  fun w =>
    match m w with
    | (Ok a, w') => k a w'
    | (Throw e, w') => (Throw e, w')
    end.

(** [try { m } catch (error) { handler(error) }] *)
Definition try_catch {A} (m : M A) (handler : JsError -> M A) : M A :=
  fun w =>
    match m w with
    | (Ok a, w') => (Ok a, w')
    | (Throw e, w') => handler e w'
    end.

(** Lifting the settled outcome of an external call. *)
Definition settle {A} (r : result A) : M A := fun w => (r, w).

Declare Scope js_scope.
Delimit Scope js_scope with js.
Notation "'let*' x ':=' m 'in' k" := (bind m (fun x => k))
  (at level 10, x name, m at level 100, k at level 200) : js_scope.
Notation "m ;; k" := (bind m (fun _ => k))
  (at level 100, k at level 200, right associativity) : js_scope.
Local Open Scope js_scope.

(** Calling an async function without awaiting it: its effects happen, and the
    promise it returns holds the outcome. *)
Definition Promise (A : Type) : Type := result A.

Definition spawn {A} (m : M A) : M (Promise A) :=
  fun w => let '(r, w') := m w in (Ok r, w').

(** [await Promise.all(promises)]: the values in the order of the promises, or
    a rejection as soon as one promise rejects. Which rejection is observed
    first depends on timing; the model reports the one of the first rejected
    promise in the list. *)
Fixpoint Promise_all_settled {A} (promises : list (Promise A)) : result (list A) :=
  match promises with
  | [] => Ok []
  | Throw e :: _ => Throw e
  | Ok a :: ps =>
      match Promise_all_settled ps with
      | Ok vs => Ok (a :: vs)
      | Throw e => Throw e
      end
  end.

Definition Promise_all {A} (promises : list (Promise A)) : M (list A) :=
  settle (Promise_all_settled promises).

(** A [for (const x of xs) { await body(x) }] loop. *)
Fixpoint for_of {A} (xs : list A) (body : A -> M unit) : M unit :=
  match xs with
  | [] => ret tt
  | x :: xs' => body x ;; for_of xs' body
  end.

(** A [for (const x of xs) { promises.push(start(x)) }] loop. *)
Fixpoint spawn_each {A B} (xs : list A) (start : A -> M B) : M (list (Promise B)) :=
  match xs with
  | [] => ret []
  | x :: xs' =>
      let* p := spawn (start x) in
      let* ps := spawn_each xs' start in
      ret (p :: ps)
  end.

Definition logger (lv : LogLevel) (message : string) : M unit :=
  fun w =>
    (Ok tt, {| fs := fs w; log := log w ++ [{| level := lv; msg := message |}];
               net := net w; transporterCache := transporterCache w |}).

Definition emit (ev : NetEvent) : M unit :=
  fun w =>
    (Ok tt, {| fs := fs w; log := log w; net := net w ++ [ev];
               transporterCache := transporterCache w |}).

Arguments logger : simpl never.
Arguments emit : simpl never.

(** ** The outside world *)

Record Platform := {
  (** [Date.parse]: the time value in milliseconds, [None] for [NaN]. *)
  Date_parse : string -> option Z;
  (** [JSON.parse] of the state file; [None] is a [SyntaxError]. *)
  JSON_parse : string -> option CacheData;
  (** [JSON.stringify(cache, null, 2)] *)
  JSON_stringify : gmap string CacheEntry -> string;
  (** [got.post(url, {json: {username, password}}).json()] *)
  got_post_login : string -> string -> string -> result string;
  (** [got.get(url, {headers}).json()] on a repository resource; [None] is
      a body that is a falsy value. *)
  got_get_repository : string -> list (string * string) -> result (option RepositoryInfo);
  (** [got.get(url, {headers}).json()] on a tag listing. *)
  got_get_tags : string -> list (string * string) -> result TagsResponse;
  (** [got(url, options)] for a webhook: the status code of the response. *)
  got_hook : WebhookRequest -> result Z;
  (** [got(undefined, { method: undefined, headers: {}, json: undefined,
      body: undefined })]: the call the webhook handler makes with a value
      that has no [reqUrl]. *)
  got_undefined : result Z;
  (** [transporter.verify()] *)
  transporter_verify : Transporter -> result unit;
  (** [transporter.sendMail(options)]: the message id. *)
  transporter_sendMail : Transporter -> MailOptions -> result string;
}.

Definition newline : string := String "010" EmptyString.
Definition dquote : string := String "034" EmptyString.

Section Program.

Variable P : Platform.

(** ** Registry client ([src/dockerApi.ts]) *)

Definition DOCKER_HUB_BASE_URL : string := "https://hub.docker.com".
Definition PAGE_SIZE : Z := 100.

Record DockerAPI := { baseUrl : string }.

(** [makeRequest<T>]: the transport is passed at the type [T] of the body the
    caller expects. *)
Definition makeRequest {T} (got_get : string -> list (string * string) -> result T)
    (url : string) (token : option string) : M T :=
  let headers :=
    if truthy token
    then [("Authorization", "Bearer " +:+ default EmptyString token)]
    else [] in
  try_catch
    (emit (HttpGet url headers) ;; settle (got_get url headers))
    (fun error =>
       logger LError "Docker Hub API request failed" ;;
       throw error).

Definition getToken (this : DockerAPI) (username password : string) : M string :=
  let url := baseUrl this +:+ "/v2/users/login" in
  try_catch
    (emit (HttpPostLogin url (String_toLowerCase username) password) ;;
     settle (got_post_login P url (String_toLowerCase username) password))
    (fun error =>
       logger LError "Failed to obtain Docker Hub token" ;;
       throw error).

Definition getRepository (this : DockerAPI) (user name : string)
    (token : option string) : M (option RepositoryInfo) :=
  let url :=
    baseUrl this +:+ "/v2/repositories/" +:+ String_toLowerCase user +:+ "/" +:+ name in
  makeRequest (got_get_repository P) url token.

Definition pageUrl (this : DockerAPI) (path : string) (page : Z) : string :=
  baseUrl this +:+ path +:+ "?page_size=" +:+ pretty PAGE_SIZE
    +:+ "&page=" +:+ pretty page.

Definition requestAllPages (this : DockerAPI) (path : string)
    (token : option string) : M (list TagInfo) :=
  let* firstPageResult := makeRequest (got_get_tags P) (pageUrl this path 1) token in
  let totalCount := count firstPageResult in
  let maxPage := Math_ceil_div totalCount PAGE_SIZE in
  if maxPage <=? 1 then ret (results firstPageResult)
  else
    let* promises :=
      spawn_each (seqZ 2 (maxPage - 1))
        (fun page => makeRequest (got_get_tags P) (pageUrl this path page) token) in
    let* subsequentResults := Promise_all promises in
    let allResults := firstPageResult :: subsequentResults in
    ret (flat_map results allResults).

Definition getTags (this : DockerAPI) (user name : string)
    (token : option string) : M (list TagInfo) :=
  let path :=
    "/v2/repositories/" +:+ String_toLowerCase user +:+ "/" +:+ name +:+ "/tags" in
  requestAllPages this path token.

Definition dockerAPI : DockerAPI := {| baseUrl := DOCKER_HUB_BASE_URL |}.

(** ** State store ([src/cache.ts]) *)

Definition set_fs (f : FileSystem) (w : World) : World :=
  {| fs := f; log := log w; net := net w; transporterCache := transporterCache w |}.

(** [readFile(cachePath, 'utf8')] *)
Definition readFile : M string :=
  fun w =>
    match (if dirExists (fs w) then file (fs w) else None) with
    | Some data => (Ok data, w)
    | None => (Throw (ErrnoException "ENOENT"), w)
    end.

(** [writeFile(cachePath, data, 'utf8')]: fails when the directory is missing
    and when the system refuses the write. *)
Definition writeFile (data : string) : M unit :=
  fun w =>
    if dirExists (fs w) then
      match writeFileError (fs w) with
      | Some code => (Throw (ErrnoException code), w)
      | None =>
          (Ok tt, set_fs {| dirExists := true; file := Some data;
                            mkdirError := mkdirError (fs w);
                            writeFileError := None |} w)
      end
    else (Throw (ErrnoException "ENOENT"), w).

(** [mkdir(dir, { recursive: true })]: nothing to do for a directory that
    exists; otherwise it is created, unless the system refuses. *)
Definition mkdir : M unit :=
  fun w =>
    if dirExists (fs w) then (Ok tt, w)
    else
      match mkdirError (fs w) with
      | Some code => (Throw (ErrnoException code), w)
      | None =>
          (Ok tt, set_fs {| dirExists := true; file := None;
                            mkdirError := None;
                            writeFileError := writeFileError (fs w) |} w)
      end.

Definition ensureDirectory : M unit :=
  try_catch mkdir (fun _ => ret tt).

Definition getCache : M CacheData :=
  try_catch
    (let* data := readFile in
     match JSON_parse P data with
     | Some cache => ret cache
     | None => throw SyntaxError
     end)
    (fun error =>
       match error with
       | ErrnoException "ENOENT" =>
           ensureDirectory ;;
           writeFile "{}" ;;
           ret ∅
       | _ =>
           logger Warn "Cache is corrupted or unreadable, recreating it" ;;
           ret ∅
       end).

Definition writeCache (cache : gmap string CacheEntry) : M unit :=
  ensureDirectory ;;
  writeFile (JSON_stringify P cache).

(** ** Notification handlers ([src/actions]) *)

Record ActionHandler := {
  handler_type : string;
  execute : Action -> UpdateInfo -> Config -> M unit;
  validateInstance : Action -> Config -> bool;
}.

(** *** Webhook ([src/actions/webhook.ts]) *)

Definition replaceItem (message : string) (item : json) : json :=
  match item with
  | JStr s => JStr (String_replace "$msg" message s)
  | _ => item
  end.

Definition replaceMessagePlaceholders (body : option json) (message : string)
    : option json :=
  match body with
  | None => None
  | Some JNull => Some JNull
  | Some (JStr s) => Some (JStr (String_replace "$msg" message s))
  | Some (JArr items) => Some (JArr (map (replaceItem message) items))
  | Some (JObj members) =>
      Some (JObj (map (fun '(key, value) => (key, replaceItem message value)) members))
  | Some other => Some other
  end.

Definition updateMessage (updateInfo : UpdateInfo) : string :=
  "Docker image '" +:+ imageName updateInfo +:+ "' was updated:" +:+ newline
    +:+ imageUrl updateInfo.

Definition webhookRequest (webhookConfig : WebhookConfig) (body : option json)
    : WebhookRequest :=
  let headers :=
    match httpHeaders webhookConfig with
    | HeadersRecord h => h
    | _ => []
    end in
  {| hook_url := reqUrl webhookConfig;
     hook_method := httpMethod webhookConfig;
     hook_headers := headers;
     hook_json :=
       match body with
       | Some (JArr items) => Some (JArr items)
       | Some (JObj members) => Some (JObj members)
       | _ => None
       end;
     hook_body :=
       match body with
       | Some (JStr (String c s)) => Some (String c s)
       | _ => None
       end |}.

(** [webhookConfig.httpBody] on the value the lookup gave. *)
Definition httpBodyOf (webhookConfig : Property WebhookConfig) : option json :=
  Property_field webhookConfig httpBody ≫= id.

(** [await got(webhookConfig.reqUrl, { method, headers, json, body })]: with a
    webhook configuration this is the request built from it; with a value
    inherited from [Object.prototype] the address, the method, the headers
    and the body are all [undefined]. *)
Definition got_webhook (webhookConfig : Property WebhookConfig) (body : option json)
    : M Z :=
  match webhookConfig with
  | Own own =>
      let request := webhookRequest own body in
      emit (HttpHook request) ;; settle (got_hook P request)
  | _ => emit HttpHookUndefined ;; settle (got_undefined P)
  end.

Definition webhook_execute (action : Action) (updateInfo : UpdateInfo)
    (config : Config) : M unit :=
  match Optional_get (webHooks config) (action_instance action) with
  | Undefined => logger LError "Webhook configuration not found"
  | webhookConfig =>
      let message := updateMessage updateInfo in
      let body := replaceMessagePlaceholders (httpBodyOf webhookConfig) message in
      try_catch
        (let* response := got_webhook webhookConfig body in
         logger Info "Webhook executed successfully")
        (fun error => logger LError "Webhook execution failed")
  end.

Definition webhook_validateInstance (action : Action) (config : Config) : bool :=
  if negb (String.eqb (action_type action) "webHook") then false
  else
    match Optional_get (webHooks config) (action_instance action) with
    | Undefined => false
    | _ => true
    end.

Definition webhookAction : ActionHandler :=
  {| handler_type := "webHook";
     execute := webhook_execute;
     validateInstance := webhook_validateInstance |}.

(** *** Mail ([src/actions/mail.ts]) *)

(** [nodemailer.createTransport({ pool: true, host: smtpConfig.host, ... })] *)
Definition createTransport (smtpConfig : SmtpFields) : Transporter :=
  {| transport_pool := true;
     transport_host := field_host smtpConfig;
     transport_port := field_port smtpConfig;
     transport_secure := field_secure smtpConfig;
     transport_auth :=
       if truthy (field_username smtpConfig) && truthy (field_password smtpConfig)
       then Some (default EmptyString (field_username smtpConfig),
                  default EmptyString (field_password smtpConfig))
       else None |}.

Definition getTransporter (instanceName : string) (smtpConfig : SmtpFields)
    : M Transporter :=
  fun w =>
    match transporterCache w !! instanceName with
    | Some cached => (Ok cached, w)
    | None =>
        let transporter := createTransport smtpConfig in
        (Ok transporter,
         {| fs := fs w; log := log w; net := net w;
            transporterCache := <[instanceName := transporter]> (transporterCache w) |})
    end.

(** A template literal prints [undefined] as the word. *)
Definition interpolate (value : option string) : string := default "undefined" value.

Definition mailOptionsFor (smtpConfig : SmtpFields) (action : Action)
    (updateInfo : UpdateInfo) : MailOptions :=
  {| mail_from :=
       dquote +:+ interpolate (field_sendername smtpConfig) +:+ dquote +:+ " <"
         +:+ interpolate (field_senderadress smtpConfig) +:+ ">";
     mail_to := action_recipient action;
     mail_subject := "Docker image '" +:+ imageName updateInfo +:+ "' updated";
     mail_text := updateMessage updateInfo |}.

Definition mail_execute (action : Action) (updateInfo : UpdateInfo)
    (config : Config) : M unit :=
  match Optional_get (smtpServer config) (action_instance action) with
  | Undefined => logger LError "SMTP server configuration not found"
  | value =>
      let smtpConfig := smtpFieldsOf value in
      let* transporter := getTransporter (action_instance action) smtpConfig in
      try_catch
        (emit (SmtpVerify transporter) ;;
         settle (transporter_verify P transporter) ;;
         let mailOptions := mailOptionsFor smtpConfig action updateInfo in
         let* info :=
           (emit (SmtpSend transporter mailOptions) ;;
            settle (transporter_sendMail P transporter mailOptions)) in
         logger Info "Notification mail sent")
        (fun error => logger LError "Failed to send notification mail")
  end.

Definition mail_validateInstance (action : Action) (config : Config) : bool :=
  if negb (String.eqb (action_type action) "mailHook") then false
  else
    match Optional_get (smtpServer config) (action_instance action) with
    | Undefined => false
    | _ => true
    end.

Definition mailAction : ActionHandler :=
  {| handler_type := "mailHook";
     execute := mail_execute;
     validateInstance := mail_validateInstance |}.

(** *** Registry of handlers ([src/actions/index.ts]) *)

Record ActionRegistry := { handlers : gmap string ActionHandler }.

Definition register (this : ActionRegistry) (handler : ActionHandler) : ActionRegistry :=
  {| handlers := <[handler_type handler := handler]> (handlers this) |}.

Definition getHandler (this : ActionRegistry) (type : string) : option ActionHandler :=
  handlers this !! type.

Definition executeAction (this : ActionRegistry) (action : Action)
    (updateInfo : UpdateInfo) (config : Config) : M unit :=
  match getHandler this (action_type action) with
  | None => logger LError "Unknown action type, skipping"
  | Some handler => execute handler action updateInfo config
  end.

(** The inner loop of [validateAllActions]; [false] is the early [return false]. *)
Fixpoint validateActions (this : ActionRegistry) (config : Config)
    (actions : list Action) : bool :=
  match actions with
  | [] => true
  | action :: rest =>
      match getHandler this (action_type action) with
      | None => false
      | Some handler =>
          if negb (validateInstance handler action config) then false
          else validateActions this config rest
      end
  end.

Fixpoint validateServices (this : ActionRegistry) (config : Config)
    (services : list NotifyService) : bool :=
  match services with
  | [] => true
  | service :: rest =>
      if validateActions this config (service_actions service)
      then validateServices this config rest
      else false
  end.

Definition validateAllActions (this : ActionRegistry) (config : Config) : bool :=
  validateServices this config (notifyServices config).

(** [new ActionRegistry()] *)
Definition actionRegistry : ActionRegistry :=
  register (register {| handlers := ∅ |} mailAction) webhookAction.

(** ** Update orchestrator ([src/index.ts]) *)

Definition parseNotifyServices (config : Config) : list ParsedNotifyService :=
  map (fun service =>
         {| job_image := parseImageString (service_image service);
            job_originalImage := service_image service;
            job_actions := service_actions service |})
      (notifyServices config).

(** The tail of [checkRepository], once [lastUpdated] is known. *)
Definition checkResult (job : ParsedNotifyService) (cacheEntry : option CacheEntry)
    (lastUpdated : string) : RepositoryCheckResult :=
  let image := job_image job in
  let updated :=
    match cacheEntry with
    | Some entry =>
        Number_lt (Date_parse P (entry_lastUpdated entry)) (Date_parse P lastUpdated)
    | None => false
    end in
  {| result_lastUpdated := lastUpdated;
     result_name := image_name image;
     result_user := image_user image;
     result_tag := image_tag image;
     result_updated := updated;
     result_job := job |}.

Definition checkRepository (job : ParsedNotifyService) (cacheEntry : option CacheEntry)
    (token : option string) : M (option RepositoryCheckResult) :=
  let image := job_image job in
  try_catch
    (if truthy (image_tag image) then
       let* tags := getTags dockerAPI (image_user image) (image_name image) token in
       match find (fun t => bool_decide (Some (tag_name t) = image_tag image)) tags with
       | None =>
           logger LError "Tag not found" ;;
           ret None
       | Some tagInfo =>
           ret (Some (checkResult job cacheEntry (tag_last_updated tagInfo)))
       end
     else
       let* repoInfo :=
         getRepository dockerAPI (image_user image) (image_name image) token in
       match repoInfo with
       | None =>
           logger LError "Repository not found" ;;
           ret None
       | Some info =>
           ret (Some (checkResult job cacheEntry (repo_last_updated info)))
       end)
    (fun error =>
       logger LError "Failed to check repository" ;;
       ret None).

Definition cacheEntryOf (result : RepositoryCheckResult) : CacheEntry :=
  {| entry_user := result_user result;
     entry_name := result_name result;
     entry_lastUpdated := result_lastUpdated result;
     entry_tag := if truthy (result_tag result) then result_tag result else None |}.

Definition updateInfoOf (result : RepositoryCheckResult) : UpdateInfo :=
  {| imageName := getImageDisplayName (job_image (result_job result));
     imageUrl := getDockerHubUrl (job_image (result_job result));
     info_lastUpdated := result_lastUpdated result |}.

(** The loop over [validResults]: every result is written to [newCache], and
    the updated ones are appended to [updatedRepos]. *)
Fixpoint processResults (newCache : gmap string CacheEntry)
    (updatedRepos : list (RepositoryCheckResult * UpdateInfo))
    (validResults : list RepositoryCheckResult)
    : gmap string CacheEntry * list (RepositoryCheckResult * UpdateInfo) :=
  match validResults with
  | [] => (newCache, updatedRepos)
  | result :: rest =>
      let key := getCacheKey (job_image (result_job result)) in
      let newCache' := <[key := cacheEntryOf result]> newCache in
      if result_updated result
      then processResults newCache' (updatedRepos ++ [(result, updateInfoOf result)]) rest
      else processResults newCache' updatedRepos rest
  end.

Definition obtainToken (config : Config) : M (option string) :=
  if truthy (dockerHubUsername config) && truthy (dockerHubPassword config) then
    try_catch
      (let* token :=
         getToken dockerAPI (default EmptyString (dockerHubUsername config))
           (default EmptyString (dockerHubPassword config)) in
       ret (Some token))
      (fun _ =>
         logger Warn "Failed to obtain Docker Hub token, proceeding without authentication" ;;
         ret None)
  else ret None.

(** [currentCache[key]]: reading a property of [null] throws; a number, a
    string, a boolean or an array has no property under a key that holds a
    '/', as every key of [getCacheKey] does. *)
Definition Cache_get (currentCache : CacheData) (key : string) : M (option CacheEntry) :=
  match currentCache with
  | Mapping entries => ret (entries !! key)
  | JsonNull =>
      throw (TypeError ("Cannot read properties of null (reading '" +:+ key +:+ "')"))
  | JsonScalar => ret None
  end.

(** The loop that starts one check per service. *)
Fixpoint startChecks (services : list ParsedNotifyService)
    (currentCache : CacheData) (token : option string)
    : M (list (Promise (option RepositoryCheckResult))) :=
  match services with
  | [] => ret []
  | service :: rest =>
      let key := getCacheKey (job_image service) in
      logger Info "Checking image" ;;
      let* cacheEntry := Cache_get currentCache key in
      let* promise := spawn (checkRepository service cacheEntry token) in
      let* checkPromises := startChecks rest currentCache token in
      ret (promise :: checkPromises)
  end.

Definition checkAll (services : list ParsedNotifyService)
    (currentCache : CacheData) (token : option string)
    : M (list (option RepositoryCheckResult)) :=
  let* checkPromises := startChecks services currentCache token in
  Promise_all checkPromises.

Definition notifyAll (config : Config)
    (updatedRepos : list (RepositoryCheckResult * UpdateInfo)) : M unit :=
  for_of updatedRepos
    (fun '(result, updateInfo) =>
       for_of (job_actions (result_job result))
         (fun action => executeAction actionRegistry action updateInfo config)).

Definition checkForUpdates (config : Config) (services : list ParsedNotifyService)
    : M unit :=
  let* token := obtainToken config in
  logger Info "Checking for updated repositories" ;;
  let* currentCache := getCache in
  let* results := checkAll services currentCache token in
  let validResults := omap id results in
  let '(newCache, updatedRepos) := processResults ∅ [] validResults in
  writeCache newCache ;;
  if (0 <? length updatedRepos)%nat then
    logger Info "Updates detected" ;;
    notifyAll config updatedRepos
  else logger Info "No updates found".

End Program.

(** ** Outcomes of the registry queries

    The registry is consulted through [P] only, so what a query returns can be
    written as a function of [P]; the monadic operations above are shown to
    return these values, whatever the world they start from. *)

Section Outcomes.

Variable P : Platform.

Definition authHeaders (token : option string) : list (string * string) :=
  if truthy token
  then [("Authorization", "Bearer " +:+ default EmptyString token)]
  else [].

(** The response to the request for one page of tags. *)
Definition pageResponse (this : DockerAPI) (path : string) (token : option string)
    (page : Z) : result TagsResponse :=
  got_get_tags P (pageUrl this path page) (authHeaders token).

Definition pageRequest (this : DockerAPI) (path : string) (token : option string)
    (page : Z) : NetEvent :=
  HttpGet (pageUrl this path page) (authHeaders token).

(** The number of pages a listing of [totalCount] tags is fetched in. *)
Definition pageCount (totalCount : Z) : Z :=
  Z.max 1 (Math_ceil_div totalCount PAGE_SIZE).

Definition tagsPath (user name : string) : string :=
  "/v2/repositories/" +:+ String_toLowerCase user +:+ "/" +:+ name +:+ "/tags".

Definition repositoryUrl (this : DockerAPI) (user name : string) : string :=
  baseUrl this +:+ "/v2/repositories/" +:+ String_toLowerCase user +:+ "/" +:+ name.

Definition tagsOutcome (this : DockerAPI) (path : string) (token : option string)
    : result (list TagInfo) :=
  match pageResponse this path token 1 with
  | Throw e => Throw e
  | Ok firstPage =>
      match Promise_all_settled
              (map (pageResponse this path token)
                   (seqZ 2 (pageCount (count firstPage) - 1))) with
      | Throw e => Throw e
      | Ok pages => Ok (flat_map results (firstPage :: pages))
      end
  end.

(** The timestamp a check of [image] obtains, [None] when the check fails
    (request error, missing repository body, or missing tag). *)
Definition fetchLastUpdated (image : ParsedImage) (token : option string)
    : option string :=
  if truthy (image_tag image) then
    match tagsOutcome dockerAPI (tagsPath (image_user image) (image_name image)) token with
    | Ok tags =>
        tag_last_updated <$>
          find (fun t => bool_decide (Some (tag_name t) = image_tag image)) tags
    | Throw _ => None
    end
  else
    match got_get_repository P
            (repositoryUrl dockerAPI (image_user image) (image_name image))
            (authHeaders token) with
    | Ok (Some info) => Some (repo_last_updated info)
    | _ => None
    end.

(** The token a cycle works with. *)
Definition tokenOutcome (config : Config) : option string :=
  if truthy (dockerHubUsername config) && truthy (dockerHubPassword config) then
    match got_post_login P (baseUrl dockerAPI +:+ "/v2/users/login")
            (String_toLowerCase (default EmptyString (dockerHubUsername config)))
            (default EmptyString (dockerHubPassword config)) with
    | Ok token => Some token
    | Throw _ => None
    end
  else None.

(** The outcome of the check of one service against the loaded state. *)
Definition checkOutcome (currentCache : gmap string CacheEntry)
    (token : option string) (service : ParsedNotifyService)
    : option RepositoryCheckResult :=
  checkResult P service (currentCache !! getCacheKey (job_image service))
    <$> fetchLastUpdated (job_image service) token.

End Outcomes.

(** Two worlds that differ in the logger output and the network trace only. *)
Definition same_store (w w' : World) : Prop :=
  fs w' = fs w /\ transporterCache w' = transporterCache w.

(** [evolves w w' nets logs]: from [w] to [w'] the requests [nets] were issued
    and the entries [logs] were logged; the file system and the transporter
    cache are unchanged. *)
Definition evolves (w w' : World) (nets : list NetEvent) (logs : list LogEntry) : Prop :=
  fs w' = fs w /\ transporterCache w' = transporterCache w
  /\ net w' = net w ++ nets /\ log w' = log w ++ logs.

Definition requestFailed : LogEntry :=
  {| level := LError; msg := "Docker Hub API request failed" |}.

(** ** A concrete platform

    A small registry, a JSON codec for state files and a calendar of two
    instants, against which the operations can be run. *)

Module Demo.

Definition backslash : ascii := "\"%char.
Definition quoteChar : ascii := "034"%char.

Fixpoint escape (s : string) : string :=
  match s with
  | EmptyString => EmptyString
  | String c r =>
      if Ascii.eqb c quoteChar || Ascii.eqb c backslash
      then String backslash (String c (escape r))
      else String c (escape r)
  end.

Definition quoted (s : string) : string := dquote +:+ escape s +:+ dquote.

Fixpoint lines (sep : string) (items : list string) : string :=
  match items with
  | [] => EmptyString
  | [item] => item
  | item :: rest => item +:+ sep +:+ lines sep rest
  end.

Definition entryFields (entry : CacheEntry) : list (string * string) :=
  [("user", entry_user entry); ("name", entry_name entry);
   ("lastUpdated", entry_lastUpdated entry)]
  ++ match entry_tag entry with Some t => [("tag", t)] | None => [] end.

Definition printEntry (entry : CacheEntry) : string :=
  "{" +:+ newline
  +:+ lines ("," +:+ newline)
        (map (fun '(k, v) => "    " +:+ quoted k +:+ ": " +:+ quoted v) (entryFields entry))
  +:+ newline +:+ "  }".

(** [JSON.stringify(cache, null, 2)] *)
Definition stringify (cache : gmap string CacheEntry) : string :=
  match map_to_list cache with
  | [] => "{}"
  | members =>
      "{" +:+ newline
      +:+ lines ("," +:+ newline)
            (map (fun '(k, entry) => "  " +:+ quoted k +:+ ": " +:+ printEntry entry) members)
      +:+ newline +:+ "}"
  end.

Definition isSpace (c : ascii) : bool :=
  Ascii.eqb c " " || Ascii.eqb c "010" || Ascii.eqb c "013" || Ascii.eqb c "009".

Fixpoint skipSpace (s : string) : string :=
  match s with
  | EmptyString => EmptyString
  | String c r => if isSpace c then skipSpace r else s
  end.

Definition expect (c : ascii) (s : string) : option string :=
  match skipSpace s with
  | String d r => if Ascii.eqb d c then Some r else None
  | EmptyString => None
  end.

(** The text of a string literal, after its opening quote. *)
Fixpoint parseStringBody (s : string) : option (string * string) :=
  match s with
  | EmptyString => None
  | String c r =>
      if Ascii.eqb c quoteChar then Some (EmptyString, r)
      else if Ascii.eqb c backslash then
        match r with
        | String e r' =>
            match parseStringBody r' with
            | Some (t, rest) => Some (String e t, rest)
            | None => None
            end
        | EmptyString => None
        end
      else
        match parseStringBody r with
        | Some (t, rest) => Some (String c t, rest)
        | None => None
        end
  end.

Definition parseString (s : string) : option (string * string) :=
  match expect quoteChar s with
  | Some r => parseStringBody r
  | None => None
  end.

(** The members of an object, after its opening brace. *)
Fixpoint parseMembers {A} (parseValue : string -> option (A * string))
    (fuel : nat) (s : string) : option (list (string * A) * string) :=
  match fuel with
  | O => None
  | S fuel' =>
      match parseString s with
      | None => None
      | Some (key, s1) =>
          match expect ":" s1 with
          | None => None
          | Some s2 =>
              match parseValue s2 with
              | None => None
              | Some (value, s3) =>
                  match expect "," s3 with
                  | Some s4 =>
                      match parseMembers parseValue fuel' s4 with
                      | Some (rest, s5) => Some ((key, value) :: rest, s5)
                      | None => None
                      end
                  | None =>
                      match expect "}" s3 with
                      | Some s4 => Some ([(key, value)], s4)
                      | None => None
                      end
                  end
              end
          end
      end
  end.

Definition parseObject {A} (parseValue : string -> option (A * string))
    (s : string) : option (list (string * A) * string) :=
  match expect "{" s with
  | None => None
  | Some s1 =>
      match expect "}" s1 with
      | Some s2 => Some ([], s2)
      | None => parseMembers parseValue (String.length s) s1
      end
  end.

Definition field (name : string) (fields : list (string * string)) : option string :=
  snd <$> find (fun kv => String.eqb (fst kv) name) fields.

Definition entryOfFields (fields : list (string * string)) : option CacheEntry :=
  match field "user" fields, field "name" fields, field "lastUpdated" fields with
  | Some u, Some n, Some l =>
      Some {| entry_user := u; entry_name := n; entry_lastUpdated := l;
              entry_tag := field "tag" fields |}
  | _, _, _ => None
  end.

Definition parseEntry (s : string) : option (CacheEntry * string) :=
  match parseObject parseString s with
  | Some (fields, rest) =>
      match entryOfFields fields with
      | Some entry => Some (entry, rest)
      | None => None
      end
  | None => None
  end.

Definition isDigit (c : ascii) : bool :=
  let n := nat_of_ascii c in ((48 <=? n) && (n <=? 57))%nat.

Fixpoint skipDigits (s : string) : string :=
  match s with
  | EmptyString => EmptyString
  | String c r => if isDigit c then skipDigits r else s
  end.

(** The text after the literal [word], when the text starts with it. *)
Definition afterWord (word s : string) : option string :=
  if startsWith word s then Some (JS.drop (String.length word) s) else None.

(** What follows a value that is not an object: [null], or a boolean, an
    integer, a string or the empty array. *)
Definition parseOther (s : string) : option (CacheData * string) :=
  let s := skipSpace s in
  match afterWord "null" s with
  | Some rest => Some (JsonNull, rest)
  | None =>
      match afterWord "true" s, afterWord "false" s, afterWord "[]" s with
      | Some rest, _, _ | _, Some rest, _ | _, _, Some rest => Some (JsonScalar, rest)
      | None, None, None =>
          match parseString s with
          | Some (_, rest) => Some (JsonScalar, rest)
          | None =>
              match s with
              | String c r => if isDigit c then Some (JsonScalar, skipDigits r) else None
              | EmptyString => None
              end
          end
      end
  end.

(** [JSON.parse] of a state file. *)
Definition parse (s : string) : option CacheData :=
  let value :=
    match parseObject parseEntry s with
    | Some (members, rest) => Some (Mapping (list_to_map members), rest)
    | None => parseOther s
    end in
  match value with
  | Some (cache, rest) =>
      match skipSpace rest with
      | EmptyString => Some cache
      | String _ _ => None
      end
  | None => None
  end.

Definition t0 : string := "2024-01-01T00:00:00Z".
Definition t1 : string := "2024-01-02T00:00:00Z".

Definition parseDate (s : string) : option Z :=
  if String.eqb s t0 then Some 1704067200000
  else if String.eqb s t1 then Some 1704153600000
  else None.

Definition nginxUrl : string := "https://hub.docker.com/v2/repositories/library/nginx".
Definition redisTags : string := "https://hub.docker.com/v2/repositories/library/redis/tags".

Definition tagsPage (name : string) (n : nat) : list TagInfo :=
  replicate n {| tag_name := name; tag_last_updated := t1 |}.

(** A registry with the repository [library/nginx], updated at [t1], and the
    repository [library/redis] with 150 tags on two pages; everything else is
    not found. *)
Definition registry : Platform :=
  {| Date_parse := parseDate;
     JSON_parse := parse;
     JSON_stringify := stringify;
     got_post_login := fun _ _ _ => Throw (HTTPError 401);
     got_get_repository := fun url _ =>
       if String.eqb url nginxUrl
       then Ok (Some {| repo_user := "library"; repo_name := "nginx";
                        repo_last_updated := t1 |})
       else Throw (HTTPError 404);
     got_get_tags := fun url _ =>
       if String.eqb url (redisTags +:+ "?page_size=100&page=1")
       then Ok {| count := 150; results := tagsPage "7" 100 |}
       else if String.eqb url (redisTags +:+ "?page_size=100&page=2")
       then Ok {| count := 150; results := tagsPage "latest" 50 |}
       else Throw (HTTPError 404);
     got_hook := fun _ => Ok 200;
     got_undefined := Throw (TypeError "Missing `url` property");
     transporter_verify := fun _ => Ok tt;
     transporter_sendMail := fun _ _ => Ok "message-1" |}.

(** The same codec and calendar, with a network on which every request fails. *)
Definition offline : Platform :=
  {| Date_parse := parseDate;
     JSON_parse := parse;
     JSON_stringify := stringify;
     got_post_login := fun _ _ _ => Throw (RequestError "ENOTFOUND");
     got_get_repository := fun _ _ => Throw (RequestError "ENOTFOUND");
     got_get_tags := fun _ _ => Throw (RequestError "ENOTFOUND");
     got_hook := fun _ => Throw (RequestError "ENOTFOUND");
     got_undefined := Throw (TypeError "Missing `url` property");
     transporter_verify := fun _ => Throw (Error "connect ECONNREFUSED");
     transporter_sendMail := fun _ _ => Throw (Error "connect ECONNREFUSED") |}.

(** A registry that answers every repository request with a null body. *)
Definition emptied : Platform :=
  {| Date_parse := parseDate;
     JSON_parse := parse;
     JSON_stringify := stringify;
     got_post_login := fun _ _ _ => Throw (HTTPError 401);
     got_get_repository := fun _ _ => Ok None;
     got_get_tags := fun _ _ => Throw (HTTPError 404);
     got_hook := fun _ => Ok 200;
     got_undefined := Throw (TypeError "Missing `url` property");
     transporter_verify := fun _ => Ok tt;
     transporter_sendMail := fun _ _ => Ok "message-1" |}.

Definition emptyWorld : World :=
  {| fs := {| dirExists := false; file := None;
              mkdirError := None; writeFileError := None |};
     log := []; net := []; transporterCache := ∅ |}.

Definition worldWithFile (data : string) : World :=
  {| fs := {| dirExists := true; file := Some data;
              mkdirError := None; writeFileError := None |};
     log := []; net := []; transporterCache := ∅ |}.



Definition nginxEntry (lastUpdated : string) : CacheEntry :=
  {| entry_user := "library"; entry_name := "nginx";
     entry_lastUpdated := lastUpdated; entry_tag := None |}.

Definition hookAction : Action :=
  {| action_type := "webHook"; action_instance := "chat"; action_recipient := None |}.

Definition mailHookAction : Action :=
  {| action_type := "mailHook"; action_instance := "relay";
     action_recipient := Some "ops@example.com" |}.

Definition nginxJob : ParsedNotifyService :=
  {| job_image := parseImageString "nginx"; job_originalImage := "nginx";
     job_actions := [hookAction; mailHookAction] |}.

Definition redisJob : ParsedNotifyService :=
  {| job_image := parseImageString "redis:latest"; job_originalImage := "redis:latest";
     job_actions := [hookAction] |}.

Definition missingJob : ParsedNotifyService :=
  {| job_image := parseImageString "nobody/nothing"; job_originalImage := "nobody/nothing";
     job_actions := [hookAction] |}.

Definition chatHook : WebhookConfig :=
  {| reqUrl := "https://chat.example.com/hook"; httpMethod := POST;
     httpHeaders := HeadersNull;
     httpBody := Some (JObj [("text", JStr "Update: $msg")]) |}.

Definition plainHook : WebhookConfig :=
  {| reqUrl := "https://chat.example.com/plain"; httpMethod := POST;
     httpHeaders := HeadersNull;
     httpBody := Some (JStr "$msg and $msg") |}.

(** A webhook with a record of headers and a string body. *)
Definition textHook : WebhookConfig :=
  {| reqUrl := "https://chat.example.com/text"; httpMethod := PUT;
     httpHeaders := HeadersRecord [("X-Token", "secret")];
     httpBody := Some (JStr "Update: $msg") |}.

Definition plainAction : Action :=
  {| action_type := "webHook"; action_instance := "plain"; action_recipient := None |}.

Definition relay : SmtpServerConfig :=
  {| smtp_host := "127.0.0.1"; smtp_port := 25; smtp_secure := true;
     sendername := "Docker Notify"; senderadress := "notify@example.com";
     smtp_username := None; smtp_password := None |}.

Definition config : Config :=
  {| dockerHubUsername := None; dockerHubPassword := None; checkInterval := 60;
     notifyServices :=
       [{| service_image := "nginx"; service_actions := [hookAction; mailHookAction] |};
        {| service_image := "redis:latest"; service_actions := [hookAction] |}];
     smtpServer := Some {[ "relay" := relay ]};
     webHooks := Some {[ "chat" := chatHook; "plain" := plainHook ]} |}.

Definition jobs : list ParsedNotifyService := [nginxJob; redisJob; missingJob].

(** A state left by an earlier cycle: [library/nginx] as of [t0], and an
    entry for an image that no longer exists. *)
Definition previous : gmap string CacheEntry :=
  {[ "library/nginx" := nginxEntry t0;
     "nobody/nothing" := {| entry_user := "nobody"; entry_name := "nothing";
                            entry_lastUpdated := t0; entry_tag := None |} ]}.

End Demo.

(** The content of the state file as [readFile] sees it. *)
Definition stored (w : World) : option string :=
  if dirExists (fs w) then file (fs w) else None.

(** Whether the state file can be written: the system accepts the write, and
    the directory exists or can be created. *)
Definition canWrite (f : FileSystem) : bool :=
  match writeFileError f with
  | Some _ => false
  | None =>
      dirExists f || match mkdirError f with Some _ => false | None => true end
  end.

Definition cacheCorrupted : LogEntry :=
  {| level := Warn; msg := "Cache is corrupted or unreadable, recreating it" |}.

(** ** What a notification logs *)

Definition logError (message : string) : LogEntry := {| level := LError; msg := message |}.
Definition logInfo (message : string) : LogEntry := {| level := Info; msg := message |}.

(** The transporter a mail to [instanceName] goes through in world [w]. *)
Definition usedTransporter (w : World) (instanceName : string)
    (smtpConfig : SmtpFields) : Transporter :=
  default (createTransport smtpConfig) (transporterCache w !! instanceName).

(** What the webhook handler's call of [got] answers. *)
Definition hookOutcome (P : Platform) (webhookConfig : Property WebhookConfig)
    (updateInfo : UpdateInfo) : result Z :=
  match webhookConfig with
  | Own own =>
      got_hook P (webhookRequest own
                    (replaceMessagePlaceholders (httpBody own) (updateMessage updateInfo)))
  | _ => got_undefined P
  end.

(** The entry the dispatch of [action] leaves in the log. *)
Definition notificationLog (P : Platform) (action : Action) (updateInfo : UpdateInfo)
    (config : Config) (w : World) : LogEntry :=
  if String.eqb (action_type action) "webHook" then
    match Optional_get (webHooks config) (action_instance action) with
    | Undefined => logError "Webhook configuration not found"
    | webhookConfig =>
        if is_ok (hookOutcome P webhookConfig updateInfo)
        then logInfo "Webhook executed successfully"
        else logError "Webhook execution failed"
    end
  else if String.eqb (action_type action) "mailHook" then
    match Optional_get (smtpServer config) (action_instance action) with
    | Undefined => logError "SMTP server configuration not found"
    | value =>
        let transporter :=
          usedTransporter w (action_instance action) (smtpFieldsOf value) in
        if is_ok (transporter_verify P transporter)
           && is_ok (transporter_sendMail P transporter
                       (mailOptionsFor (smtpFieldsOf value) action updateInfo))
        then logInfo "Notification mail sent"
        else logError "Failed to send notification mail"
    end
  else logError "Unknown action type, skipping".

(** The requests the dispatch of [action] issues. *)
Definition notificationTraffic (P : Platform) (action : Action) (updateInfo : UpdateInfo)
    (config : Config) (w : World) : list NetEvent :=
  if String.eqb (action_type action) "webHook" then
    match Optional_get (webHooks config) (action_instance action) with
    | Undefined => []
    | Own own =>
        [HttpHook (webhookRequest own
                     (replaceMessagePlaceholders (httpBody own) (updateMessage updateInfo)))]
    | Inherited => [HttpHookUndefined]
    end
  else if String.eqb (action_type action) "mailHook" then
    match Optional_get (smtpServer config) (action_instance action) with
    | Undefined => []
    | value =>
        let transporter :=
          usedTransporter w (action_instance action) (smtpFieldsOf value) in
        SmtpVerify transporter ::
          (if is_ok (transporter_verify P transporter)
           then [SmtpSend transporter (mailOptionsFor (smtpFieldsOf value) action updateInfo)]
           else [])
    end
  else [].

(** The notifications a batch of updates stands for, in the order in which
    they are due. *)
Definition batch (updatedRepos : list (RepositoryCheckResult * UpdateInfo))
    : list (Action * UpdateInfo) :=
  flat_map (fun '(result, updateInfo) =>
              map (fun action => (action, updateInfo)) (job_actions (result_job result)))
           updatedRepos.

(** The handlers find in [w'] the transporters they find or create in [w]. *)
Definition transportersKept (config : Config) (w w' : World) : Prop :=
  forall instanceName,
    let smtpConfig := smtpFieldsOf (Optional_get (smtpServer config) instanceName) in
    usedTransporter w' instanceName smtpConfig = usedTransporter w instanceName smtpConfig.

(** ** Whether an action resolves

    [hasEntry]: the backend instance an action names has an entry in the map
    of its kind. [instanceDefined]: the lookup of the name in that map gives
    something, be it an entry or a value inherited from [Object.prototype]. *)
Definition hasEntry (config : Config) (action : Action) : bool :=
  if String.eqb (action_type action) "webHook" then
    match webHooks config ≫= (fun hooks => hooks !! action_instance action) with
    | Some _ => true
    | None => false
    end
  else if String.eqb (action_type action) "mailHook" then
    match smtpServer config ≫= (fun servers => servers !! action_instance action) with
    | Some _ => true
    | None => false
    end
  else false.

Definition instanceDefined (config : Config) (action : Action) : bool :=
  if String.eqb (action_type action) "webHook" then
    match Optional_get (webHooks config) (action_instance action) with
    | Undefined => false
    | _ => true
    end
  else if String.eqb (action_type action) "mailHook" then
    match Optional_get (smtpServer config) (action_instance action) with
    | Undefined => false
    | _ => true
    end
  else false.

(** A configuration the schema admits, with one webhook and an action that
    names the instance [toString], which [webHooks] does not define. *)
Definition toStringAction : Action :=
  {| action_type := "webHook"; action_instance := "toString"; action_recipient := None |}.

Definition toStringMail : Action :=
  {| action_type := "mailHook"; action_instance := "toString";
     action_recipient := Some "ops@example.com" |}.

Definition toStringConfig : Config :=
  {| dockerHubUsername := None; dockerHubPassword := None; checkInterval := 60;
     notifyServices :=
       [{| service_image := "nginx"; service_actions := [toStringAction] |}];
     smtpServer := None;
     webHooks := Some {[ "chat" := Demo.chatHook ]} |}.

(** An action passes when a handler is registered for its kind and accepts it. *)
Definition accepted (this : ActionRegistry) (config : Config) (action : Action) : Prop :=
  exists handler,
    getHandler this (action_type action) = Some handler
    /\ validateInstance handler action config = true.

(** ** Kinds of failure of a registry request *)

(** The repository does not exist: the registry answers 404. *)
Definition notFound : JsError := HTTPError 404.

(** The request did not get through, or the registry answers 5xx. *)
Definition transportOr5xx (e : JsError) : bool :=
  match e with
  | RequestError _ => true
  | HTTPError statusCode => (500 <=? statusCode) && (statusCode <=? 599)
  | _ => false
  end.

Definition checkFailed : LogEntry :=
  {| level := LError; msg := "Failed to check repository" |}.

(** ** Literal substitution

    [replaceFirst pat text s] puts [text], as it stands, in the place of the
    first occurrence of [pat] in [s]. *)
Definition replaceFirst (pat text s : string) : string :=
  match String_find pat s with
  | None => s
  | Some (before, after) => before +:+ text +:+ after
  end.

Definition substituteItem (message : string) (item : json) : json :=
  match item with
  | JStr s => JStr (replaceFirst "$msg" message s)
  | _ => item
  end.

(** An update of an image whose name contains the characters [$&]. *)
Definition dollarUpdate : UpdateInfo :=
  {| imageName := "a$&b";
     imageUrl := "https://hub.docker.com/r/_/a$&b/tags";
     info_lastUpdated := "2024-01-02T00:00:00Z" |}.

(** ** Further operations of the sources *)

(** [clearTransporterCache] ([src/actions/mail.ts]) *)
Definition clearTransporterCache : M unit :=
  fun w =>
    (Ok tt, {| fs := fs w; log := log w; net := net w; transporterCache := ∅ |}).

(** An issue added by the schema refinement. *)
Record Issue := {
  issue_message : string;
  issue_path : list string;
}.

(** The check of one action in the [superRefine] callback of [ConfigSchema]
    ([src/schema.ts]). *)
Definition refineAction (config : Config) (action : Action) : list Issue :=
  if String.eqb (action_type action) "webHook" then
    match Optional_get (webHooks config) (action_instance action) with
    | Undefined =>
        [{| issue_message :=
              "Webhook instance '" +:+ action_instance action
                +:+ "' is referenced but not defined in webHooks";
            issue_path := ["webHooks"; action_instance action] |}]
    | _ => []
    end
  else if String.eqb (action_type action) "mailHook" then
    match Optional_get (smtpServer config) (action_instance action) with
    | Undefined =>
        [{| issue_message :=
              "SMTP server instance '" +:+ action_instance action
                +:+ "' is referenced but not defined in smtpServer";
            issue_path := ["smtpServer"; action_instance action] |}]
    | _ => []
    end
  else [].

(** The [superRefine] callback: the issues it adds, in the order of the loops. *)
Definition superRefine (config : Config) : list Issue :=
  flat_map (fun service => flat_map (refineAction config) (service_actions service))
           (notifyServices config).

(** *** Loading the configuration ([loadConfig], [src/index.ts]) *)

(** How the start-up ends: with a value, or with [process.exit(code)]. *)
Inductive Startup (A : Type) :=
| Started (a : A)
| Exit (code : Z).
Arguments Started {A} a.
Arguments Exit {A} code.

Section LoadConfig.

(** The value a configuration file parses to, before validation. *)
Variable Raw : Type.
(** [parse] of jsonc-parser, which is fault tolerant and returns a value for
    every text; [JSON.parse], which throws on a text that is not JSON; and
    [ConfigSchema.safeParse] ([None] when [success] is false). *)
Variable parseJsonc : string -> Raw.
Variable JSON_parse_raw : string -> result Raw.
Variable safeParse : Raw -> option Config.

(** [jsonc] and [json] are the contents of [config/config.jsonc] and
    [config/config.json], [None] when the file cannot be read. *)
Definition loadConfig (jsonc json : option string) (w : World)
    : Startup Config * World :=
  let parseAndValidate (useJsonc : bool) (configContent : string) :=
    match (if useJsonc then Ok (parseJsonc configContent)
           else JSON_parse_raw configContent) with
    | Throw _ =>
        (Exit 1, snd (logger LError "Failed to parse configuration file" w))
    | Ok rawConfig =>
        match safeParse rawConfig with
        | None => (Exit 2, snd (logger LError "Configuration validation failed" w))
        | Some data => (Started data, snd (logger Info "Configuration loaded" w))
        end
    end in
  match jsonc with
  | Some configContent => parseAndValidate true configContent
  | None =>
      match json with
      | Some configContent => parseAndValidate false configContent
      | None => (Exit 1, snd (logger LError "Failed to load configuration file" w))
      end
  end.

End LoadConfig.

(** ** Well-formed images and what a cycle computes *)

(** What [parseImageString] guarantees of its result: no '/' in the
    namespace, no '/' or ':' in the name and in the tag. *)
Definition wellFormed (image : ParsedImage) : Prop :=
  no_char "/" (image_user image)
  /\ no_char "/" (image_name image) /\ no_char ":" (image_name image)
  /\ match image_tag image with
     | Some t => no_char "/" t /\ no_char ":" t
     | None => True
     end.

(** An image with an empty tag counts as untagged. *)
Definition normalize (image : ParsedImage) : ParsedImage :=
  {| image_user := image_user image;
     image_name := image_name image;
     image_tag := if truthy (image_tag image) then image_tag image else None |}.

(** The name with its tag, as both the key and the display name end. *)
Definition nameAndTag (image : ParsedImage) : string :=
  if truthy (image_tag image)
  then image_name image +:+ ":" +:+ default EmptyString (image_tag image)
  else image_name image.

(** Traffic to a notification backend, as opposed to the registry. *)
Definition isNotification (ev : NetEvent) : bool :=
  match ev with
  | HttpHook _ | HttpHookUndefined | SmtpVerify _ | SmtpSend _ _ => true
  | HttpGet _ _ | HttpPostLogin _ _ _ => false
  end.

Definition notifications (w : World) : list NetEvent :=
  List.filter isNotification (net w).

(** A computation that talks to the registry only: it leaves the file system
    and the transporter cache alone and issues no notification traffic. *)
Definition quiet {A} (m : M A) : Prop :=
  forall w, exists nets logs,
    evolves w (snd (m w)) nets logs
    /\ Forall (fun ev => isNotification ev = false) nets.

(** The value [getCache] loads in world [w], when it returns. *)
Definition loadedCache (P : Platform) (w : World) : CacheData :=
  match stored w with
  | Some data => default ∅ (JSON_parse P data)
  | None => ∅
  end.

(** Whether the checks can read their entries from the loaded value: [null]
    has no properties, which matters as soon as there is a service. *)
Definition readable (cache : CacheData) (services : list ParsedNotifyService) : bool :=
  match cache, services with
  | JsonNull, _ :: _ => false
  | _, _ => true
  end.

(** The valid results, the new state and the updates of a cycle that starts
    from the loaded state [currentCache]. *)
Definition cycleResults (P : Platform) (config : Config)
    (services : list ParsedNotifyService) (currentCache : gmap string CacheEntry)
    : list RepositoryCheckResult :=
  omap (checkOutcome P currentCache (tokenOutcome P config)) services.

Definition cycleState (P : Platform) (config : Config)
    (services : list ParsedNotifyService) (currentCache : gmap string CacheEntry)
    : gmap string CacheEntry :=
  fst (processResults ∅ [] (cycleResults P config services currentCache)).

Definition cycleUpdates (P : Platform) (config : Config)
    (services : list ParsedNotifyService) (currentCache : gmap string CacheEntry)
    : list (RepositoryCheckResult * UpdateInfo) :=
  snd (processResults ∅ [] (cycleResults P config services currentCache)).

(** * Properties *)

#[local] Arguments String.append : simpl nomatch.

(** ** Strings *)

Lemma no_char_nil c : no_char c EmptyString.
Proof. unfold no_char. simpl. apply not_elem_of_nil. Qed.

Lemma no_char_cons c a s : no_char c (String a s) <-> a <> c /\ no_char c s.
Proof.
  unfold no_char. simpl. rewrite not_elem_of_cons. intuition congruence.
Qed.

Lemma String_split_nonempty sep s : String_split sep s <> [].
Proof.
  destruct s as [|c s]; simpl; [discriminate|].
  destruct (Ascii.eqb c sep); [discriminate|].
  destruct (String_split sep s); discriminate.
Qed.

Lemma String_split_no_sep sep p : no_char sep p -> String_split sep p = [p].
Proof.
  induction p as [|c p IH]; intros H; simpl; [reflexivity|].
  apply no_char_cons in H as [Hc Hp].
  destruct (Ascii.eqb_spec c sep) as [->|_]; [contradiction|].
  rewrite (IH Hp). reflexivity.
Qed.

Lemma String_split_segment sep p rest :
  no_char sep p ->
  String_split sep (p +:+ String sep rest) = p :: String_split sep rest.
Proof.
  induction p as [|c p IH]; intros H; simpl.
  - rewrite Ascii.eqb_refl. reflexivity.
  - apply no_char_cons in H as [Hc Hp].
    destruct (Ascii.eqb_spec c sep) as [->|_]; [contradiction|].
    rewrite (IH Hp). reflexivity.
Qed.

(** The first element of a split is the text before the first separator. *)
Lemma String_split_head sep s h t :
  String_split sep s = h :: t ->
  no_char sep h /\
  ((t = [] /\ s = h) \/ exists r, s = h +:+ String sep r /\ t = String_split sep r).
Proof.
  revert h t. induction s as [|c s IH]; intros h t; simpl.
  - intros [= <- <-]. split; [apply no_char_nil | left; auto].
  - destruct (Ascii.eqb_spec c sep) as [->|Hc].
    + intros [= <- <-]. split; [apply no_char_nil|]. right. exists s. auto.
    + destruct (String_split sep s) as [|p ps] eqn:E.
      { exfalso. eapply String_split_nonempty; eauto. }
      intros [= <- <-]. destruct (IH p ps eq_refl) as [Hp Hs].
      split; [apply no_char_cons; auto|].
      destruct Hs as [[-> ->]|[r [-> ->]]]; [left; auto|].
      right. exists r. auto.
Qed.

(** ** C10: image strings *)

(** C10. For an image string with two or more '/' separators, written
    [p0/p1/rest] with no '/' inside [p0] and [p1], [parseImageString] uses the
    first two segments only: the result is that of [p0/p1], the namespace is
    [p0], the repository name is [p1] up to its first ':', and [rest] has no
    influence. A string without '/' (such as [p1]) gets the namespace
    "library". *)
Theorem parseImageString_first_two_segments (p0 p1 rest : string) :
  no_char "/" p0 -> no_char "/" p1 ->
  let parsed := parseImageString (p0 +:+ "/" +:+ p1 +:+ "/" +:+ rest) in
  parsed = parseImageString (p0 +:+ "/" +:+ p1)
  /\ image_user parsed = p0
  /\ no_char ":" (image_name parsed)
  /\ (p1 = image_name parsed \/ exists suffix, p1 = image_name parsed +:+ ":" +:+ suffix)
  /\ image_user (parseImageString p1) = "library".
Proof.
  intros H0 H1. cbn zeta.
  assert (E3 : String_split "/" (p0 +:+ "/" +:+ p1 +:+ "/" +:+ rest)
               = p0 :: p1 :: String_split "/" rest).
  { change (p0 +:+ "/" +:+ p1 +:+ "/" +:+ rest)
      with (p0 +:+ String "/" (p1 +:+ String "/" rest)).
    rewrite !String_split_segment by assumption. reflexivity. }
  assert (E2 : String_split "/" (p0 +:+ "/" +:+ p1) = [p0; p1]).
  { change (p0 +:+ "/" +:+ p1) with (p0 +:+ String "/" p1).
    rewrite String_split_segment, String_split_no_sep by assumption. reflexivity. }
  unfold parseImageString. rewrite E3, E2, (String_split_no_sep "/" p1 H1).
  destruct (String_split "/" rest) as [|r rs] eqn:Er.
  { exfalso. eapply String_split_nonempty; eauto. }
  cbn [length Nat.ltb Nat.leb lookup list_lookup default id image_user image_name].
  destruct (String_split ":" p1) as [|n ns] eqn:En.
  { exfalso. eapply String_split_nonempty; eauto. }
  destruct (String_split_head _ _ _ _ En) as [Hn Hs].
  cbn [lookup list_lookup default id].
  repeat split; auto.
  destruct Hs as [[_ ->]|[suffix [-> _]]]; [left; reflexivity|].
  right. exists suffix. reflexivity.
Qed.

Lemma parseImageString_first_two_segments_witness :
  parseImageString "a/b/c:t" = parseImageString "a/b"
  /\ image_user (parseImageString "a/b/c:t") = "a"
  /\ image_name (parseImageString "a/b/c:t") = "b"
  /\ image_user (parseImageString "b") = "library".
Proof.
  assert (Ha : no_char "/" "a").
  { unfold no_char. simpl. rewrite not_elem_of_cons. split; [discriminate|apply not_elem_of_nil]. }
  assert (Hb : no_char "/" "b").
  { unfold no_char. simpl. rewrite not_elem_of_cons. split; [discriminate|apply not_elem_of_nil]. }
  destruct (parseImageString_first_two_segments "a" "b" "c:t" Ha Hb)
    as (E & Hu & _ & _ & Hl).
  split; [exact E|]. split; [exact Hu|]. split; [reflexivity | exact Hl].
Defined.

(** ** Running the monad *)

Lemma evolves_refl w : evolves w w [] [].
Proof. unfold evolves. rewrite !app_nil_r. auto. Qed.

Lemma evolves_trans w w1 w2 n1 l1 n2 l2 :
  evolves w w1 n1 l1 -> evolves w1 w2 n2 l2 -> evolves w w2 (n1 ++ n2) (l1 ++ l2).
Proof.
  intros (F1 & T1 & N1 & L1) (F2 & T2 & N2 & L2). unfold evolves.
  rewrite F2, T2, N2, L2, F1, T1, N1, L1, !app_assoc. auto.
Qed.

Lemma evolves_same_store w w' nets logs : evolves w w' nets logs -> same_store w w'.
Proof. intros (F & T & _). split; assumption. Qed.

Lemma logger_run lv message w :
  exists w', logger lv message w = (Ok tt, w')
             /\ evolves w w' [] [{| level := lv; msg := message |}].
Proof.
  eexists. split; [reflexivity|]. unfold evolves. simpl. rewrite app_nil_r. auto.
Qed.

Lemma emit_run ev w :
  exists w', emit ev w = (Ok tt, w') /\ evolves w w' [ev] [].
Proof.
  eexists. split; [reflexivity|]. unfold evolves. simpl. rewrite app_nil_r. auto.
Qed.

(** ** Registry client *)

Section RegistryClient.

Variable P : Platform.

(** [makeRequest] issues one GET and hands back what the transport answered:
    the value, or the very error it was rejected with. *)
Lemma makeRequest_outcome {T} (got_get : string -> list (string * string) -> result T)
    url token w :
  exists w',
    makeRequest got_get url token w = (got_get url (authHeaders token), w')
    /\ evolves w w' [HttpGet url (authHeaders token)]
         (if is_ok (got_get url (authHeaders token)) then [] else [requestFailed]).
Proof.
  unfold makeRequest, try_catch, bind, settle, authHeaders.
  destruct (emit_run (HttpGet url (if truthy token
              then [("Authorization", "Bearer " +:+ default EmptyString token)]
              else [])) w) as (w1 & E1 & H1).
  rewrite E1.
  destruct (got_get url _) as [a|e] eqn:E; cbn [is_ok].
  - exists w1. split; [reflexivity | exact H1].
  - destruct (logger_run LError "Docker Hub API request failed" w1) as (w2 & E2 & H2).
    rewrite E2. unfold throw. exists w2. split; [reflexivity|].
    exact (evolves_trans _ _ _ _ _ _ _ H1 H2).
Qed.

Lemma spawn_each_pages this path token pages w :
  exists w' logs,
    spawn_each pages
      (fun page => makeRequest (got_get_tags P) (pageUrl this path page) token) w
    = (Ok (map (pageResponse P this path token) pages), w')
    /\ evolves w w' (map (pageRequest this path token) pages) logs.
Proof.
  revert w. induction pages as [|page pages IH]; intros w; simpl.
  - exists w, []. split; [reflexivity | apply evolves_refl].
  - unfold bind, spawn.
    destruct (makeRequest_outcome (got_get_tags P) (pageUrl this path page) token w)
      as (w1 & E1 & H1).
    rewrite E1. destruct (IH w1) as (w2 & logs & E2 & H2). rewrite E2.
    eexists w2, _. split; [reflexivity|].
    exact (evolves_trans _ _ _ _ _ _ _ H1 H2).
Qed.

Lemma pageCount_single totalCount :
  Math_ceil_div totalCount PAGE_SIZE <= 1 -> pageCount totalCount = 1.
Proof. unfold pageCount. lia. Qed.

Lemma pageCount_many totalCount :
  1 < Math_ceil_div totalCount PAGE_SIZE ->
  pageCount totalCount = Math_ceil_div totalCount PAGE_SIZE.
Proof. unfold pageCount. lia. Qed.

Lemma seqZ_from_one n : 1 <= n -> seqZ 1 n = 1 :: seqZ 2 (n - 1).
Proof.
  intros H. rewrite (seqZ_cons 1 n) by lia.
  replace (Z.pred n) with (n - 1) by lia. reflexivity.
Qed.

(** What [requestAllPages] returns and which requests it issues. *)
Lemma requestAllPages_outcome this path token w :
  exists w' logs,
    requestAllPages P this path token w = (tagsOutcome P this path token, w')
    /\ evolves w w'
         (match pageResponse P this path token 1 with
          | Throw _ => [pageRequest this path token 1]
          | Ok firstPage =>
              map (pageRequest this path token) (seqZ 1 (pageCount (count firstPage)))
          end) logs.
Proof.
  unfold requestAllPages, tagsOutcome, bind.
  destruct (makeRequest_outcome (got_get_tags P) (pageUrl this path 1) token w)
    as (w1 & E1 & H1).
  rewrite E1. unfold pageResponse at 1 3.
  destruct (got_get_tags P (pageUrl this path 1) (authHeaders token)) as [fp|e] eqn:E.
  - destruct (Z.leb_spec (Math_ceil_div (count fp) PAGE_SIZE) 1) as [Hle|Hgt].
    + rewrite (pageCount_single _ Hle). simpl. rewrite app_nil_r.
      eexists w1, _. split; [reflexivity | exact H1].
    + rewrite (pageCount_many _ Hgt).
      destruct (spawn_each_pages this path token
                  (seqZ 2 (Math_ceil_div (count fp) PAGE_SIZE - 1)) w1)
        as (w2 & logs & E2 & H2).
      rewrite E2. unfold Promise_all, settle.
      rewrite (seqZ_from_one (Math_ceil_div (count fp) PAGE_SIZE)) by lia.
      eexists w2, _. split.
      * destruct (Promise_all_settled _); reflexivity.
      * exact (evolves_trans _ _ _ _ _ _ _ H1 H2).
  - eexists w1, _. split; [reflexivity | exact H1].
Qed.

End RegistryClient.

(** ** C3: fetching all tag pages *)

Lemma Math_ceil_div_bounds totalCount :
  PAGE_SIZE * (Math_ceil_div totalCount PAGE_SIZE - 1) < totalCount
  <= PAGE_SIZE * Math_ceil_div totalCount PAGE_SIZE.
Proof.
  unfold Math_ceil_div, PAGE_SIZE.
  pose proof (Z.div_mod (- totalCount) 100 ltac:(lia)).
  pose proof (Z.mod_pos_bound (- totalCount) 100 ltac:(lia)).
  lia.
Qed.

Lemma Promise_all_settled_ok {A} (values : list A) :
  Promise_all_settled (map Ok values) = Ok values.
Proof.
  induction values as [|v values IH]; simpl; [reflexivity|]. rewrite IH. reflexivity.
Qed.

Lemma Promise_all_settled_rejects {A} (promises : list (Promise A)) p :
  p ∈ promises -> is_ok p = false -> is_ok (Promise_all_settled promises) = false.
Proof.
  intros Hin. induction Hin as [p promises|p q promises Hin IH]; intros Hp; simpl.
  - destruct p; simpl in *; congruence.
  - destruct q; [|reflexivity]. specialize (IH Hp).
    destruct (Promise_all_settled promises); simpl in *; congruence.
Qed.

Section FetchAllTags.

Variable P : Platform.

(** C3. [getTags] first requests page 1. If that request fails, so does the
    fetch. Otherwise, with [n = ceil(count / 100)], the requests issued are
    exactly those for the pages [1 .. max 1 n], in ascending order, and all of
    them are issued whether or not one of them fails; a [count] that fits in
    one page gives exactly one request and the results of the first page (150
    gives two requests, 5 gives one); when every page is answered, the result
    is the concatenation of the pages' results in page order; and when some
    page fails, the fetch fails and returns no list. *)
Theorem getTags_all_pages (this : DockerAPI) (user name : string)
    (token : option string) (w : World) :
  let path := tagsPath user name in
  exists r w' nets logs,
    getTags P this user name token w = (r, w')
    /\ evolves w w' nets logs
    /\ match pageResponse P this path token 1 with
       | Throw e => nets = [pageRequest this path token 1] /\ r = Throw e
       | Ok firstPage =>
           let n := Math_ceil_div (count firstPage) PAGE_SIZE in
           PAGE_SIZE = 100
           /\ PAGE_SIZE * (n - 1) < count firstPage <= PAGE_SIZE * n
           /\ nets = map (pageRequest this path token) (seqZ 1 (Z.max 1 n))
           /\ (n <= 1 ->
               nets = [pageRequest this path token 1] /\ r = Ok (results firstPage))
           /\ (count firstPage = 150 -> length nets = 2%nat)
           /\ (count firstPage = 5 -> length nets = 1%nat)
           /\ (forall pages,
                 map (pageResponse P this path token) (seqZ 1 (Z.max 1 n)) = map Ok pages ->
                 r = Ok (flat_map results pages))
           /\ (forall page,
                 1 <= page <= n -> is_ok (pageResponse P this path token page) = false ->
                 is_ok r = false)
       end.
Proof.
  intros path. unfold getTags. fold (tagsPath user name). fold path.
  destruct (requestAllPages_outcome P this path token w) as (w' & logs & E & H).
  exists (tagsOutcome P this path token), w'. eexists _, logs.
  split; [exact E|]. split; [exact H|].
  unfold tagsOutcome.
  destruct (pageResponse P this path token 1) as [fp|e] eqn:E1; [|split; reflexivity].
  cbn zeta. fold (pageCount (count fp)).
  set (n := Math_ceil_div (count fp) PAGE_SIZE).
  assert (HN : pageCount (count fp) = Z.max 1 n) by reflexivity.
  split; [reflexivity|]. split; [apply Math_ceil_div_bounds|].
  split; [reflexivity|].
  split; [|split; [|split; [|split]]].
  - intros Hn. rewrite HN. replace (Z.max 1 n) with 1 by lia. simpl.
    rewrite app_nil_r. split; reflexivity.
  - intros Hc. rewrite length_map, length_seqZ. rewrite HN. unfold n.
    rewrite Hc. reflexivity.
  - intros Hc. rewrite length_map, length_seqZ. rewrite HN. unfold n.
    rewrite Hc. reflexivity.
  - intros pages Hp.
    rewrite (seqZ_from_one (pageCount (count fp))) in Hp by (rewrite HN; lia).
    destruct pages as [|p0 pages]; [discriminate|].
    cbn [map] in Hp. injection Hp as Hp0 Hp. rewrite Hp.
    rewrite Promise_all_settled_ok. rewrite E1 in Hp0. congruence.
  - intros page Hpage Hfail.
    assert (page <> 1) by (intros ->; rewrite E1 in Hfail; discriminate).
    assert (Hin : pageResponse P this path token page
                  ∈ map (pageResponse P this path token)
                      (seqZ 2 (pageCount (count fp) - 1))).
    { apply list_elem_of_fmap_2. apply elem_of_seqZ. rewrite HN. lia. }
    pose proof (Promise_all_settled_rejects _ _ Hin Hfail) as Hr.
    destruct (Promise_all_settled _); [discriminate | reflexivity].
Qed.

End FetchAllTags.

Lemma getTags_all_pages_witness :
  exists tags w',
    getTags Demo.registry dockerAPI "library" "redis" None Demo.emptyWorld = (Ok tags, w')
    /\ length tags = 150%nat
    /\ length (net w') = 2%nat.
Proof.
  destruct (getTags_all_pages Demo.registry dockerAPI "library" "redis" None Demo.emptyWorld)
    as (r & w' & nets & logs & E & (_ & _ & Hn & _) & H).
  assert (E1 : pageResponse Demo.registry dockerAPI (tagsPath "library" "redis") None 1
               = Ok {| count := 150; results := Demo.tagsPage "7" 100 |})
    by (vm_compute; reflexivity).
  rewrite E1 in H. cbn zeta in H. cbn [count] in H.
  destruct H as (_ & _ & Hnets & _ & H150 & _ & Hall & _).
  exists (flat_map results [ {| count := 150; results := Demo.tagsPage "7" 100 |};
                             {| count := 150; results := Demo.tagsPage "latest" 50 |} ]), w'.
  split; [|split].
  - rewrite E. f_equal. apply Hall. vm_compute. reflexivity.
  - vm_compute. reflexivity.
  - rewrite Hn. cbn [Demo.emptyWorld net app]. apply H150. reflexivity.
Defined.

(** ** C8: the state store *)

Section StateStore.

Variable P : Platform.

(** Creating the directory and writing the file: both succeed when the file
    can be written; otherwise the write throws (the failure of [mkdir] is
    swallowed) and the content is left as it was. *)
Lemma ensureDirectory_writeFile data w :
  exists r w',
    (ensureDirectory ;; writeFile data) w = (r, w')
    /\ log w' = log w /\ net w' = net w /\ transporterCache w' = transporterCache w
    /\ if canWrite (fs w)
       then r = Ok tt /\ stored w' = Some data /\ canWrite (fs w') = true
       else (exists code, r = Throw (ErrnoException code))
            /\ stored w' = stored w /\ canWrite (fs w') = false.
Proof.
  unfold bind, ensureDirectory, try_catch, mkdir, writeFile, ret, canWrite, stored.
  destruct (fs w) as [dir content mkdirE writeE] eqn:E. cbn [dirExists mkdirError].
  destruct dir.
  - rewrite E. cbn [writeFileError dirExists].
    destruct writeE as [code|]; eexists _, _; (split; [reflexivity|]);
      cbn; rewrite ?E; cbn; repeat split; eauto.
  - destruct mkdirE as [code|]; cbn.
    + rewrite E. cbn. destruct writeE as [code'|]; eexists _, _; (split; [reflexivity|]);
        rewrite ?E; cbn; repeat split; eauto.
    + destruct writeE as [code'|]; eexists _, _; (split; [reflexivity|]);
        cbn; repeat split; eauto.
Qed.

Lemma writeCache_run cache w :
  exists r w',
    writeCache P cache w = (r, w')
    /\ log w' = log w /\ net w' = net w /\ transporterCache w' = transporterCache w
    /\ if canWrite (fs w)
       then r = Ok tt /\ stored w' = Some (JSON_stringify P cache)
            /\ canWrite (fs w') = true
       else (exists code, r = Throw (ErrnoException code))
            /\ stored w' = stored w /\ canWrite (fs w') = false.
Proof. apply ensureDirectory_writeFile. Qed.

(** Loading when there is no file: the empty mapping once [{}] is written,
    and the error of the write when it cannot be. *)
Lemma getCache_absent w :
  stored w = None ->
  exists r w',
    getCache P w = (r, w')
    /\ log w' = log w /\ net w' = net w /\ transporterCache w' = transporterCache w
    /\ if canWrite (fs w)
       then r = Ok ∅ /\ stored w' = Some "{}" /\ canWrite (fs w') = true
       else (exists code, r = Throw (ErrnoException code))
            /\ stored w' = None /\ canWrite (fs w') = false.
Proof.
  intros H.
  assert (E : getCache P w
              = match (ensureDirectory ;; writeFile "{}") w with
                | (Ok _, w') => (Ok ∅, w')
                | (Throw e, w') => (Throw e, w')
                end).
  { unfold stored in H. unfold getCache, try_catch, readFile. unfold bind at 1.
    rewrite H. cbv beta iota. unfold bind.
    destruct (ensureDirectory w) as [[[]|e] w1]; [|reflexivity].
    destruct (writeFile "{}" w1) as [[[]|e] w2]; reflexivity. }
  rewrite E.
  destruct (ensureDirectory_writeFile "{}" w) as (r & w' & Er & L & N & T & Hr).
  rewrite Er. rewrite H in Hr.
  destruct (canWrite (fs w)).
  - destruct Hr as (-> & Hs & Hc). eexists _, w'. split; [reflexivity|].
    repeat split; assumption.
  - destruct Hr as ((code & ->) & Hs & Hc). eexists _, w'. split; [reflexivity|].
    repeat split; eauto.
Qed.

Lemma getCache_parsed w data cache :
  stored w = Some data -> JSON_parse P data = Some cache ->
  getCache P w = (Ok cache, w).
Proof.
  unfold stored. intros H Hp.
  unfold getCache, try_catch, bind, readFile. rewrite H, Hp. reflexivity.
Qed.

Lemma getCache_corrupt w data :
  stored w = Some data -> JSON_parse P data = None ->
  exists w', getCache P w = (Ok ∅, w') /\ evolves w w' [] [cacheCorrupted].
Proof.
  unfold stored. intros H Hp.
  unfold getCache, try_catch, bind, readFile. rewrite H, Hp. unfold throw.
  destruct (logger_run Warn "Cache is corrupted or unreadable, recreating it" w)
    as (w' & E & Hw).
  rewrite E. exists w'. split; [reflexivity | exact Hw].
Qed.


End StateStore.



(** ** C7: dispatching notifications *)

Section Dispatch.

Variable P : Platform.

Lemma getHandler_actionRegistry type :
  getHandler (actionRegistry P) type
  = if String.eqb type "webHook" then Some (webhookAction P)
    else if String.eqb type "mailHook" then Some (mailAction P)
    else None.
Proof.
  unfold getHandler, actionRegistry, register. cbn [handlers handler_type webhookAction mailAction].
  destruct (String.eqb_spec type "webHook") as [->|Hw].
  { apply lookup_insert_eq. }
  rewrite lookup_insert_ne by congruence.
  destruct (String.eqb_spec type "mailHook") as [->|Hm].
  { apply lookup_insert_eq. }
  rewrite lookup_insert_ne by congruence. apply lookup_empty.
Qed.

Lemma transportersKept_refl config w w' :
  transporterCache w' = transporterCache w -> transportersKept config w w'.
Proof. intros H instanceName. unfold usedTransporter. rewrite H. reflexivity. Qed.

Lemma transportersKept_trans config w w1 w2 :
  transportersKept config w w1 -> transportersKept config w1 w2 ->
  transportersKept config w w2.
Proof. intros H1 H2 instanceName. cbn zeta. rewrite (H2 instanceName). apply H1. Qed.

(** What a dispatch logs and issues depends on the world through the
    transporters only. *)
Lemma notification_kept action updateInfo config w w' :
  transportersKept config w w' ->
  notificationLog P action updateInfo config w'
  = notificationLog P action updateInfo config w
  /\ notificationTraffic P action updateInfo config w'
     = notificationTraffic P action updateInfo config w.
Proof.
  intros H. specialize (H (action_instance action)). cbn zeta in H.
  unfold notificationLog, notificationTraffic.
  destruct (String.eqb (action_type action) "webHook"); [split; reflexivity|].
  destruct (String.eqb (action_type action) "mailHook"); [|split; reflexivity].
  destruct (Optional_get (smtpServer config) (action_instance action));
    cbn zeta; rewrite ?H; split; reflexivity.
Qed.

(** The request of the webhook handler, its outcome and the entry logged. *)
Lemma webhook_attempt (m : M Z) (ev : NetEvent) (outcome : result Z) w :
  m = (emit ev ;; settle outcome) ->
  exists w',
    try_catch
      (let* response := m in logger Info "Webhook executed successfully")
      (fun error => logger LError "Webhook execution failed") w = (Ok tt, w')
    /\ evolves w w' [ev]
         [if is_ok outcome then logInfo "Webhook executed successfully"
          else logError "Webhook execution failed"].
Proof.
  intros ->. unfold try_catch, bind, settle.
  destruct (emit_run ev w) as (w1 & E1 & H1). rewrite E1.
  destruct outcome as [status|e]; cbn [is_ok].
  - destruct (logger_run Info "Webhook executed successfully" w1) as (w2 & E2 & H2).
    rewrite E2. exists w2. split; [reflexivity|].
    exact (evolves_trans _ _ _ _ _ _ _ H1 H2).
  - destruct (logger_run LError "Webhook execution failed" w1) as (w2 & E2 & H2).
    rewrite E2. exists w2. split; [reflexivity|].
    exact (evolves_trans _ _ _ _ _ _ _ H1 H2).
Qed.

(** The webhook handler, case by case of what the lookup of the instance
    gives. *)
Lemma webhook_execute_outcome action updateInfo config w :
  exists w',
    webhook_execute P action updateInfo config w = (Ok tt, w')
    /\ match Optional_get (webHooks config) (action_instance action) with
       | Undefined => evolves w w' [] [logError "Webhook configuration not found"]
       | Own own =>
           evolves w w'
             [HttpHook (webhookRequest own
                          (replaceMessagePlaceholders (httpBody own)
                             (updateMessage updateInfo)))]
             [if is_ok (hookOutcome P (Own own) updateInfo)
              then logInfo "Webhook executed successfully"
              else logError "Webhook execution failed"]
       | Inherited =>
           evolves w w' [HttpHookUndefined]
             [if is_ok (hookOutcome P Inherited updateInfo)
              then logInfo "Webhook executed successfully"
              else logError "Webhook execution failed"]
       end.
Proof.
  unfold webhook_execute.
  destruct (Optional_get (webHooks config) (action_instance action)) as [own| |].
  - exact (webhook_attempt
             (got_webhook P (Own own)
                (replaceMessagePlaceholders (httpBodyOf (Own own))
                   (updateMessage updateInfo)))
             (HttpHook (webhookRequest own
                          (replaceMessagePlaceholders (httpBody own)
                             (updateMessage updateInfo))))
             (hookOutcome P (Own own) updateInfo) w eq_refl).
  - exact (webhook_attempt
             (got_webhook P Inherited
                (replaceMessagePlaceholders (httpBodyOf Inherited)
                   (updateMessage updateInfo)))
             HttpHookUndefined (hookOutcome P Inherited updateInfo) w eq_refl).
  - exact (logger_run LError "Webhook configuration not found" w).
Qed.

Lemma webhook_execute_run action updateInfo config w :
  String.eqb (action_type action) "webHook" = true ->
  exists w',
    webhook_execute P action updateInfo config w = (Ok tt, w')
    /\ same_store w w'
    /\ log w' = log w ++ [notificationLog P action updateInfo config w]
    /\ net w' = net w ++ notificationTraffic P action updateInfo config w.
Proof.
  intros Ht. unfold notificationLog, notificationTraffic. rewrite Ht.
  destruct (webhook_execute_outcome action updateInfo config w) as (w' & E & H).
  exists w'. split; [exact E|].
  destruct (Optional_get (webHooks config) (action_instance action)) as [own| |];
    (split; [exact (evolves_same_store _ _ _ _ H) | split; apply H]).
Qed.

Lemma getTransporter_run instanceName smtpConfig w :
  exists w',
    getTransporter instanceName smtpConfig w
    = (Ok (usedTransporter w instanceName smtpConfig), w')
    /\ fs w' = fs w /\ log w' = log w /\ net w' = net w
    /\ transporterCache w'
       = <[instanceName := usedTransporter w instanceName smtpConfig]> (transporterCache w).
Proof.
  unfold getTransporter, usedTransporter.
  destruct (transporterCache w !! instanceName) as [cached|] eqn:E;
    eexists; (split; [reflexivity|]); repeat split.
  cbn. symmetry. apply insert_id. exact E.
Qed.

Lemma getTransporter_kept (config : Config) instanceName w w' :
  transporterCache w'
  = <[instanceName :=
        usedTransporter w instanceName
          (smtpFieldsOf (Optional_get (smtpServer config) instanceName))]>
      (transporterCache w) ->
  transportersKept config w w'.
Proof.
  intros H other. cbn zeta. unfold usedTransporter at 1. rewrite H.
  destruct (decide (instanceName = other)) as [->|Hne].
  - rewrite lookup_insert_eq. reflexivity.
  - rewrite lookup_insert_ne by exact Hne. reflexivity.
Qed.

(** The verification and the submission, once the transporter is known. *)
Lemma mail_attempt transporter mailOptions w :
  exists w',
    try_catch
      (emit (SmtpVerify transporter) ;;
       settle (transporter_verify P transporter) ;;
       let* info :=
         (emit (SmtpSend transporter mailOptions) ;;
          settle (transporter_sendMail P transporter mailOptions)) in
       logger Info "Notification mail sent")
      (fun error => logger LError "Failed to send notification mail") w = (Ok tt, w')
    /\ evolves w w'
         (SmtpVerify transporter ::
            (if is_ok (transporter_verify P transporter)
             then [SmtpSend transporter mailOptions] else []))
         [if is_ok (transporter_verify P transporter)
             && is_ok (transporter_sendMail P transporter mailOptions)
          then logInfo "Notification mail sent"
          else logError "Failed to send notification mail"].
Proof.
  unfold try_catch, bind, settle.
  destruct (emit_run (SmtpVerify transporter) w) as (w1 & E1 & H1). rewrite E1.
  destruct (transporter_verify P transporter) as [[]|e]; cbn [is_ok andb].
  - destruct (emit_run (SmtpSend transporter mailOptions) w1) as (w2 & E2 & H2).
    rewrite E2.
    pose proof (evolves_trans _ _ _ _ _ _ _ H1 H2) as H12.
    destruct (transporter_sendMail P transporter mailOptions) as [info|e]; cbn [is_ok].
    + destruct (logger_run Info "Notification mail sent" w2) as (w3 & E3 & H3).
      rewrite E3. exists w3. split; [reflexivity|].
      exact (evolves_trans _ _ _ _ _ _ _ H12 H3).
    + destruct (logger_run LError "Failed to send notification mail" w2) as (w3 & E3 & H3).
      rewrite E3. exists w3. split; [reflexivity|].
      exact (evolves_trans _ _ _ _ _ _ _ H12 H3).
  - destruct (logger_run LError "Failed to send notification mail" w1) as (w2 & E2 & H2).
    rewrite E2. exists w2. split; [reflexivity|].
    exact (evolves_trans _ _ _ _ _ _ _ H1 H2).
Qed.

(** The mail handler, case by case of what the lookup of the instance
    gives. *)
Lemma mail_execute_outcome action updateInfo config w :
  exists w',
    mail_execute P action updateInfo config w = (Ok tt, w')
    /\ fs w' = fs w
    /\ match Optional_get (smtpServer config) (action_instance action) with
       | Undefined => evolves w w' [] [logError "SMTP server configuration not found"]
       | value =>
           let smtpConfig := smtpFieldsOf value in
           let transporter := usedTransporter w (action_instance action) smtpConfig in
           log w' = log w ++
             [if is_ok (transporter_verify P transporter)
                 && is_ok (transporter_sendMail P transporter
                             (mailOptionsFor smtpConfig action updateInfo))
              then logInfo "Notification mail sent"
              else logError "Failed to send notification mail"]
           /\ net w' = net w ++
                SmtpVerify transporter ::
                  (if is_ok (transporter_verify P transporter)
                   then [SmtpSend transporter (mailOptionsFor smtpConfig action updateInfo)]
                   else [])
           /\ transporterCache w'
              = <[action_instance action := transporter]> (transporterCache w)
       end.
Proof.
  unfold mail_execute.
  assert (Hrun : forall value,
             let smtpConfig := smtpFieldsOf value in
             let transporter := usedTransporter w (action_instance action) smtpConfig in
             exists w',
               (let* transporter := getTransporter (action_instance action) smtpConfig in
                try_catch
                  (emit (SmtpVerify transporter) ;;
                   settle (transporter_verify P transporter) ;;
                   let mailOptions := mailOptionsFor smtpConfig action updateInfo in
                   let* info :=
                     (emit (SmtpSend transporter mailOptions) ;;
                      settle (transporter_sendMail P transporter mailOptions)) in
                   logger Info "Notification mail sent")
                  (fun error => logger LError "Failed to send notification mail")) w
               = (Ok tt, w')
               /\ fs w' = fs w
               /\ log w' = log w ++
                    [if is_ok (transporter_verify P transporter)
                        && is_ok (transporter_sendMail P transporter
                                    (mailOptionsFor smtpConfig action updateInfo))
                     then logInfo "Notification mail sent"
                     else logError "Failed to send notification mail"]
               /\ net w' = net w ++
                    SmtpVerify transporter ::
                      (if is_ok (transporter_verify P transporter)
                       then [SmtpSend transporter
                               (mailOptionsFor smtpConfig action updateInfo)]
                       else [])
               /\ transporterCache w'
                  = <[action_instance action := transporter]> (transporterCache w)).
  { intros value smtpConfig transporter. unfold bind at 1.
    destruct (getTransporter_run (action_instance action) smtpConfig w)
      as (w0 & E0 & F0 & L0 & N0 & T0).
    rewrite E0. fold transporter.
    destruct (mail_attempt transporter (mailOptionsFor smtpConfig action updateInfo) w0)
      as (w' & E & F & T & N & L).
    exists w'. split; [exact E|]. rewrite F, L, N, T, F0, L0, N0, T0.
    repeat split. }
  destruct (Optional_get (smtpServer config) (action_instance action)) as [own| |].
  - exact (Hrun (Own own)).
  - exact (Hrun Inherited).
  - destruct (logger_run LError "SMTP server configuration not found" w) as (w1 & E1 & H1).
    exists w1. split; [exact E1|]. split; [apply H1 | exact H1].
Qed.

Lemma mail_execute_run action updateInfo config w :
  String.eqb (action_type action) "webHook" = false ->
  String.eqb (action_type action) "mailHook" = true ->
  exists w',
    mail_execute P action updateInfo config w = (Ok tt, w')
    /\ fs w' = fs w
    /\ log w' = log w ++ [notificationLog P action updateInfo config w]
    /\ net w' = net w ++ notificationTraffic P action updateInfo config w
    /\ transportersKept config w w'.
Proof.
  intros Hw Hm. unfold notificationLog, notificationTraffic. rewrite Hw, Hm.
  destruct (mail_execute_outcome action updateInfo config w) as (w' & E & F & H).
  exists w'. split; [exact E|]. split; [exact F|].
  destruct (Optional_get (smtpServer config) (action_instance action)) as [own| |] eqn:Hv.
  - destruct H as (L & N & T). repeat split; try assumption.
    apply (getTransporter_kept config (action_instance action)). rewrite Hv. exact T.
  - destruct H as (L & N & T). repeat split; try assumption.
    apply (getTransporter_kept config (action_instance action)). rewrite Hv. exact T.
  - destruct H as (_ & T & N & L). repeat split; try assumption.
    apply transportersKept_refl. exact T.
Qed.

Lemma executeAction_run action updateInfo config w :
  exists w',
    executeAction (actionRegistry P) action updateInfo config w = (Ok tt, w')
    /\ fs w' = fs w
    /\ log w' = log w ++ [notificationLog P action updateInfo config w]
    /\ net w' = net w ++ notificationTraffic P action updateInfo config w
    /\ transportersKept config w w'.
Proof.
  unfold executeAction. rewrite getHandler_actionRegistry.
  destruct (String.eqb (action_type action) "webHook") eqn:Hw.
  - destruct (webhook_execute_run action updateInfo config w Hw)
      as (w' & E & [F T] & L & N).
    exists w'. repeat split; try assumption. apply transportersKept_refl. exact T.
  - destruct (String.eqb (action_type action) "mailHook") eqn:Hm.
    + exact (mail_execute_run action updateInfo config w Hw Hm).
    + destruct (logger_run LError "Unknown action type, skipping" w)
        as (w1 & E1 & F & T & N & L).
      exists w1. split; [exact E1|]. unfold notificationLog, notificationTraffic.
      rewrite Hw, Hm. repeat split; try assumption.
      apply transportersKept_refl. exact T.
Qed.

Lemma for_of_actions actions updateInfo config w :
  exists w',
    for_of actions
      (fun action => executeAction (actionRegistry P) action updateInfo config) w
    = (Ok tt, w')
    /\ fs w' = fs w
    /\ log w' = log w ++
         map (fun action => notificationLog P action updateInfo config w) actions
    /\ net w' = net w ++
         flat_map (fun action => notificationTraffic P action updateInfo config w) actions
    /\ transportersKept config w w'.
Proof.
  revert w. induction actions as [|action actions IH]; intros w; simpl.
  - exists w. rewrite !app_nil_r. repeat split.
  - unfold bind.
    destruct (executeAction_run action updateInfo config w) as (w1 & E1 & F1 & L1 & N1 & K1).
    rewrite E1. destruct (IH w1) as (w2 & E2 & F2 & L2 & N2 & K2).
    exists w2. split; [exact E2|]. split; [congruence|].
    assert (Hl : map (fun action => notificationLog P action updateInfo config w1) actions
                 = map (fun action => notificationLog P action updateInfo config w) actions).
    { apply map_ext. intros a. apply (notification_kept a updateInfo config w w1 K1). }
    assert (Hn : flat_map (fun action => notificationTraffic P action updateInfo config w1)
                   actions
                 = flat_map (fun action => notificationTraffic P action updateInfo config w)
                     actions).
    { apply flat_map_ext. intros a. apply (notification_kept a updateInfo config w w1 K1). }
    rewrite L2, L1, N2, N1, Hl, Hn, <- !app_assoc.
    split; [reflexivity|]. split; [reflexivity|].
    exact (transportersKept_trans _ _ _ _ K1 K2).
Qed.

Lemma notifyAll_run config updatedRepos w :
  exists w',
    notifyAll P config updatedRepos w = (Ok tt, w')
    /\ fs w' = fs w
    /\ log w' = log w ++
         map (fun '(action, updateInfo) => notificationLog P action updateInfo config w)
             (batch updatedRepos)
    /\ net w' = net w ++
         flat_map (fun '(action, updateInfo) =>
                     notificationTraffic P action updateInfo config w)
                  (batch updatedRepos)
    /\ transportersKept config w w'.
Proof.
  unfold notifyAll, batch.
  revert w. induction updatedRepos as [|[result updateInfo] rest IH]; intros w; simpl.
  - exists w. rewrite !app_nil_r. repeat split.
  - unfold bind.
    destruct (for_of_actions (job_actions (result_job result)) updateInfo config w)
      as (w1 & E1 & F1 & L1 & N1 & K1).
    rewrite E1. destruct (IH w1) as (w2 & E2 & F2 & L2 & N2 & K2).
    exists w2. split; [exact E2|]. split; [congruence|].
    set (rest' := flat_map _ rest) in *.
    assert (Hl : map (fun '(action, updateInfo) =>
                        notificationLog P action updateInfo config w1) rest'
                 = map (fun '(action, updateInfo) =>
                          notificationLog P action updateInfo config w) rest').
    { apply map_ext. intros [a u]. apply (notification_kept a u config w w1 K1). }
    assert (Hn : flat_map (fun '(action, updateInfo) =>
                             notificationTraffic P action updateInfo config w1) rest'
                 = flat_map (fun '(action, updateInfo) =>
                               notificationTraffic P action updateInfo config w) rest').
    { apply flat_map_ext. intros [a u]. apply (notification_kept a u config w w1 K1). }
    rewrite L2, L1, N2, N1, Hl, Hn, map_app, flat_map_app, map_map, <- !app_assoc.
    split; [reflexivity|]. split.
    + do 2 f_equal. clear. induction (job_actions (result_job result)) as [|a l IHl];
        [reflexivity|]. simpl. rewrite IHl. reflexivity.
    + exact (transportersKept_trans _ _ _ _ K1 K2).
Qed.

(** C7. Dispatching an action whose kind has no handler in the registry logs
    one error and returns normally. With the built-in registry every dispatch
    returns normally, whatever the configuration holds and whatever the
    backends answer: it logs exactly one entry and issues the requests of
    that one notification. The entry is an error, and nothing is sent, when
    the lookup of the instance gives nothing; it is the error of the failed
    attempt when the webhook request fails, and when the SMTP verification or
    submission fails. A whole batch of notifications returns normally: every
    notification of the batch is attempted, in order, and logs and sends what
    it would on its own, whatever became of the ones before it. *)
Theorem executeAction_never_throws (this : ActionRegistry) (action : Action)
    (updateInfo : UpdateInfo) (config : Config)
    (updatedRepos : list (RepositoryCheckResult * UpdateInfo)) (w : World) :
  (getHandler this (action_type action) = None ->
   exists w', executeAction this action updateInfo config w = (Ok tt, w')
              /\ evolves w w' [] [logError "Unknown action type, skipping"])
  /\ (exists w',
        executeAction (actionRegistry P) action updateInfo config w = (Ok tt, w')
        /\ fs w' = fs w
        /\ log w' = log w ++ [notificationLog P action updateInfo config w]
        /\ net w' = net w ++ notificationTraffic P action updateInfo config w)
  /\ (instanceDefined config action = false ->
      level (notificationLog P action updateInfo config w) = LError
      /\ notificationTraffic P action updateInfo config w = [])
  /\ (action_type action = "webHook" ->
      Optional_get (webHooks config) (action_instance action) <> Undefined ->
      is_ok (hookOutcome P (Optional_get (webHooks config) (action_instance action))
               updateInfo) = false ->
      notificationLog P action updateInfo config w
        = logError "Webhook execution failed")
  /\ (action_type action = "mailHook" ->
      Optional_get (smtpServer config) (action_instance action) <> Undefined ->
      let smtpConfig :=
        smtpFieldsOf (Optional_get (smtpServer config) (action_instance action)) in
      let transporter := usedTransporter w (action_instance action) smtpConfig in
      is_ok (transporter_verify P transporter) = false
      \/ is_ok (transporter_sendMail P transporter
                  (mailOptionsFor smtpConfig action updateInfo)) = false ->
      notificationLog P action updateInfo config w
        = logError "Failed to send notification mail")
  /\ (exists w',
        notifyAll P config updatedRepos w = (Ok tt, w')
        /\ fs w' = fs w
        /\ log w' = log w ++
             map (fun '(action, updateInfo) =>
                    notificationLog P action updateInfo config w)
                 (batch updatedRepos)
        /\ net w' = net w ++
             flat_map (fun '(action, updateInfo) =>
                         notificationTraffic P action updateInfo config w)
                      (batch updatedRepos)).
Proof.
  split; [|split; [|split; [|split; [|split]]]].
  - intros H. unfold executeAction. rewrite H.
    exact (logger_run LError "Unknown action type, skipping" w).
  - destruct (executeAction_run action updateInfo config w) as (w' & E & F & L & N & _).
    exists w'. auto.
  - unfold instanceDefined, notificationLog, notificationTraffic.
    destruct (String.eqb (action_type action) "webHook").
    { destruct (Optional_get (webHooks config) _); (discriminate || split; reflexivity). }
    destruct (String.eqb (action_type action) "mailHook"); [|split; reflexivity].
    destruct (Optional_get (smtpServer config) _); (discriminate || split; reflexivity).
  - intros Ht Hc Hf. unfold notificationLog.
    rewrite Ht. cbn [String.eqb Ascii.eqb Bool.eqb].
    destruct (Optional_get (webHooks config) (action_instance action));
      [rewrite Hf; reflexivity | rewrite Hf; reflexivity | contradiction].
  - intros Ht Hc smtpConfig transporter Hf. unfold notificationLog.
    rewrite Ht. cbn [String.eqb Ascii.eqb Bool.eqb].
    unfold transporter, smtpConfig in Hf.
    destruct (Optional_get (smtpServer config) (action_instance action));
      [| |contradiction]; cbn zeta;
      (destruct Hf as [-> | ->]; [reflexivity | rewrite andb_false_r; reflexivity]).
  - destruct (notifyAll_run config updatedRepos w) as (w' & E & F & L & N & _).
    exists w'. auto.
Qed.

End Dispatch.

Lemma executeAction_never_throws_witness :
  (exists w',
     executeAction {| handlers := ∅ |} Demo.hookAction
       {| imageName := "nginx"; imageUrl := "https://hub.docker.com/r/_/nginx/tags";
          info_lastUpdated := Demo.t1 |} Demo.config Demo.emptyWorld = (Ok tt, w')
     /\ log w' = [logError "Unknown action type, skipping"])
  /\ (exists w',
        executeAction (actionRegistry Demo.offline) toStringMail
          {| imageName := "nginx"; imageUrl := "https://hub.docker.com/r/_/nginx/tags";
             info_lastUpdated := Demo.t1 |} Demo.config Demo.emptyWorld = (Ok tt, w')
        /\ log w' = [logError "Failed to send notification mail"]
        /\ net w' = [SmtpVerify (createTransport noFields)])
  /\ (exists w',
        notifyAll Demo.offline Demo.config
          [(checkResult Demo.offline Demo.nginxJob (Some (Demo.nginxEntry Demo.t0)) Demo.t1,
            {| imageName := "nginx"; imageUrl := "https://hub.docker.com/r/_/nginx/tags";
               info_lastUpdated := Demo.t1 |})] Demo.emptyWorld = (Ok tt, w')
        /\ log w' = [logError "Webhook execution failed";
                     logError "Failed to send notification mail"]
        /\ length (net w') = 2%nat).
Proof.
  split; [|split].
  - destruct (executeAction_never_throws Demo.offline {| handlers := ∅ |} Demo.hookAction
                {| imageName := "nginx"; imageUrl := "https://hub.docker.com/r/_/nginx/tags";
                   info_lastUpdated := Demo.t1 |} Demo.config [] Demo.emptyWorld)
      as (H & _).
    destruct (H ltac:(apply lookup_empty)) as (w' & E & _ & _ & _ & L).
    exists w'. split; [exact E | exact L].
  - destruct (executeAction_never_throws Demo.offline {| handlers := ∅ |} toStringMail
                {| imageName := "nginx"; imageUrl := "https://hub.docker.com/r/_/nginx/tags";
                   info_lastUpdated := Demo.t1 |} Demo.config [] Demo.emptyWorld)
      as (_ & (w' & E & _ & L & N) & _ & _ & H & _).
    exists w'. split; [exact E|]. split; [|exact N].
    rewrite L, (H eq_refl ltac:(vm_compute; discriminate) ltac:(left; reflexivity)).
    reflexivity.
  - destruct (executeAction_never_throws Demo.offline {| handlers := ∅ |} Demo.hookAction
                {| imageName := "nginx"; imageUrl := "https://hub.docker.com/r/_/nginx/tags";
                   info_lastUpdated := Demo.t1 |} Demo.config
                [(checkResult Demo.offline Demo.nginxJob (Some (Demo.nginxEntry Demo.t0)) Demo.t1,
                  {| imageName := "nginx"; imageUrl := "https://hub.docker.com/r/_/nginx/tags";
                     info_lastUpdated := Demo.t1 |})] Demo.emptyWorld)
      as (_ & _ & _ & _ & _ & w' & E & _ & L & N).
    exists w'. split; [exact E|]. split; [exact L | rewrite N; reflexivity].
Defined.

(** ** C4: validating the configured actions *)

Section Validation.

Variable P : Platform.

Lemma validateActions_true this config actions :
  validateActions this config actions = true
  <-> forall action, action ∈ actions -> accepted this config action.
Proof.
  induction actions as [|action rest IH]; simpl.
  - split; [|reflexivity]. intros _ a Ha. inversion Ha.
  - destruct (getHandler this (action_type action)) as [handler|] eqn:Hh.
    + destruct (validateInstance handler action config) eqn:Hv; simpl.
      * rewrite IH. split.
        -- intros H a Ha. apply elem_of_cons in Ha as [->|Ha]; [|auto].
           exists handler. auto.
        -- intros H a Ha. apply H. apply elem_of_cons. auto.
      * split; [discriminate|]. intros H.
        destruct (H action ltac:(apply elem_of_cons; auto)) as (h & Eh & Ev).
        congruence.
    + split; [discriminate|]. intros H.
      destruct (H action ltac:(apply elem_of_cons; auto)) as (h & Eh & _).
      congruence.
Qed.

Lemma validateServices_true this config services :
  validateServices this config services = true
  <-> forall service, service ∈ services ->
      forall action, action ∈ service_actions service -> accepted this config action.
Proof.
  induction services as [|service rest IH]; simpl.
  - split; [|reflexivity]. intros _ s Hs. inversion Hs.
  - destruct (validateActions this config (service_actions service)) eqn:Hv.
    + rewrite IH. pose proof (proj1 (validateActions_true _ _ _) Hv) as Hv'. split.
      * intros H s Hs. apply elem_of_cons in Hs as [->|Hs]; [exact Hv'|].
        exact (H s Hs).
      * intros H s Hs. apply H. apply elem_of_cons. auto.
    + split; [discriminate|]. intros H.
      assert (Ht : validateActions this config (service_actions service) = true).
      { apply validateActions_true. apply H. apply elem_of_cons. auto. }
      congruence.
Qed.

Lemma accepted_built_in config action :
  accepted (actionRegistry P) config action <-> instanceDefined config action = true.
Proof.
  unfold accepted, instanceDefined. rewrite getHandler_actionRegistry.
  destruct (String.eqb (action_type action) "webHook") eqn:Hw.
  - assert (Hv : validateInstance (webhookAction P) action config
                 = match Optional_get (webHooks config) (action_instance action) with
                   | Undefined => false
                   | _ => true
                   end).
    { cbn [validateInstance webhookAction]. unfold webhook_validateInstance.
      rewrite Hw. reflexivity. }
    rewrite <- Hv. split.
    + intros (h & [= <-] & H). exact H.
    + intros H. eexists. split; [reflexivity | exact H].
  - destruct (String.eqb (action_type action) "mailHook") eqn:Hm.
    + assert (Hv : validateInstance (mailAction P) action config
                   = match Optional_get (smtpServer config) (action_instance action) with
                     | Undefined => false
                     | _ => true
                     end).
      { cbn [validateInstance mailAction]. unfold mail_validateInstance.
        rewrite Hm. reflexivity. }
      rewrite <- Hv. split.
      * intros (h & [= <-] & H). exact H.
      * intros H. eexists. split; [reflexivity | exact H].
    + split; [intros (h & [=] & _) | discriminate].
Qed.

(** For a name that [Object.prototype] does not define, the lookup gives
    something exactly when the map has an entry under the name. *)
Lemma Optional_get_own {A} (obj : option (gmap string A)) key :
  key ∉ Object_prototype_names ->
  Optional_get obj key
  = match obj ≫= (fun members => members !! key) with
    | Some a => Own a
    | None => Undefined
    end.
Proof.
  intros H. destruct obj as [members|]; [|reflexivity]. cbn.
  unfold Object_get. destruct (members !! key); [reflexivity|].
  rewrite bool_decide_eq_false_2 by exact H. reflexivity.
Qed.

Lemma instanceDefined_hasEntry config action :
  action_instance action ∉ Object_prototype_names ->
  instanceDefined config action = hasEntry config action.
Proof.
  intros H. unfold instanceDefined, hasEntry.
  rewrite !(Optional_get_own _ _ H).
  destruct (String.eqb (action_type action) "webHook").
  { destruct (webHooks config ≫= _); reflexivity. }
  destruct (String.eqb (action_type action) "mailHook"); [|reflexivity].
  destruct (smtpServer config ≫= _); reflexivity.
Qed.

(** What [validateAllActions] decides: every action of every configured
    service has a registered handler for its kind whose [validateInstance]
    accepts it. For the built-in registry this means that every action is a
    webhook or mail action for whose instance name the lookup in [webHooks]
    or [smtpServer] gives something; as soon as that lookup gives nothing
    for one action the answer is false, whatever actions and services come
    after it. Unless the name is one of [Object.prototype], the lookup gives
    something exactly when there is an entry under the name. *)
Lemma validateAllActions_iff (this : ActionRegistry) (config : Config) :
  (validateAllActions this config = true
   <-> forall service, service ∈ notifyServices config ->
       forall action, action ∈ service_actions service -> accepted this config action)
  /\ (validateAllActions (actionRegistry P) config = true
      <-> forall service, service ∈ notifyServices config ->
          forall action, action ∈ service_actions service ->
          instanceDefined config action = true)
  /\ (forall service action,
        service ∈ notifyServices config -> action ∈ service_actions service ->
        action_instance action ∉ Object_prototype_names ->
        hasEntry config action = false ->
        validateAllActions (actionRegistry P) config = false)
  /\ (forall before service after earlier action later,
        notifyServices config = before ++ service :: after ->
        service_actions service = earlier ++ action :: later ->
        instanceDefined config action = false ->
        forall after' later',
          validateServices (actionRegistry P) config
            (before ++ {| service_image := service_image service;
                          service_actions := earlier ++ action :: later' |} :: after')
          = false).
Proof.
  assert (Hb : forall services,
             validateServices (actionRegistry P) config services = true
             <-> forall service, service ∈ services ->
                 forall action, action ∈ service_actions service ->
                 instanceDefined config action = true).
  { intros services. rewrite validateServices_true.
    split; intros H s Hs a Ha; apply accepted_built_in; eauto. }
  split; [apply validateServices_true|]. split; [apply Hb|]. split.
  - intros service action Hs Ha Hn Hd.
    destruct (validateAllActions (actionRegistry P) config) eqn:E; [|reflexivity].
    pose proof (proj1 (Hb _) E) as E'.
    rewrite <- (instanceDefined_hasEntry _ _ Hn), (E' service Hs action Ha) in Hd.
    discriminate.
  - intros before service after earlier action later _ _ Hd after' later'.
    match goal with |- ?v = false => destruct v eqn:E; [|reflexivity] end.
    pose proof (proj1 (Hb _) E) as E'.
    assert (Hs : {| service_image := service_image service;
                    service_actions := earlier ++ action :: later' |}
                 ∈ before ++ {| service_image := service_image service;
                                service_actions := earlier ++ action :: later' |} :: after').
    { apply elem_of_app. right. apply elem_of_cons. auto. }
    assert (Ha : action ∈ earlier ++ action :: later').
    { apply elem_of_app. right. apply elem_of_cons. auto. }
    rewrite (E' _ Hs action Ha) in Hd. discriminate.
Qed.

(** C4. The configuration [toStringConfig] defines the webhook [chat] only,
    and its one action names the webhook [toString]. There is no entry under
    that name, but the lookup [config.webHooks?.["toString"]] finds the
    function that every object inherits from [Object.prototype], which is
    not [undefined]: [validateInstance] accepts the action,
    [validateAllActions] answers true, and the schema refinement, which does
    the same lookup, adds no issue. When the action is dispatched the handler
    takes the inherited function for a webhook configuration and calls [got]
    with an address that is [undefined]. *)
Theorem validateAllActions_accepts_inherited_name (P0 : Platform) :
  webHooks toStringConfig ≫= (fun hooks => hooks !! action_instance toStringAction) = None
  /\ hasEntry toStringConfig toStringAction = false
  /\ validateInstance (webhookAction P0) toStringAction toStringConfig = true
  /\ validateAllActions (actionRegistry P0) toStringConfig = true
  /\ superRefine toStringConfig = []
  /\ net (snd (executeAction (actionRegistry P0) toStringAction dollarUpdate
                 toStringConfig Demo.emptyWorld))
     = [HttpHookUndefined].
Proof.
  split; [reflexivity|]. split; [reflexivity|]. split; [reflexivity|].
  split; [reflexivity|]. split; [reflexivity|].
  destruct (executeAction_run P0 toStringAction dollarUpdate toStringConfig Demo.emptyWorld)
    as (w' & E & _ & _ & N & _).
  rewrite E. exact N.
Qed.

End Validation.

(** ** C6: fetching one repository *)

Section FetchRepository.

Lemma getRepository_outcome (P : Platform) this user name token w :
  exists w',
    getRepository P this user name token w
    = (got_get_repository P (repositoryUrl this user name) (authHeaders token), w')
    /\ evolves w w' [HttpGet (repositoryUrl this user name) (authHeaders token)]
         (if is_ok (got_get_repository P (repositoryUrl this user name) (authHeaders token))
          then [] else [requestFailed]).
Proof.
  unfold getRepository. fold (repositoryUrl this user name).
  apply makeRequest_outcome.
Qed.

(** C6. [getRepository] issues a single GET and hands back what the HTTP
    client answered: a rejection carries the very error the request failed
    with. A repository that is not found, whether the client rejects with the
    404 status or resolves with an empty body, therefore gives an outcome that
    differs from the outcome of a request that failed in transport or with a
    5xx status, and a caller can tell the two apart. *)
Theorem getRepository_not_found_distinct (P0 P1 P2 : Platform) (this : DockerAPI)
    (user name : string) (token : option string) (w0 w1 w2 : World) (e : JsError) :
  got_get_repository P0 (repositoryUrl this user name) (authHeaders token) = Ok None ->
  got_get_repository P1 (repositoryUrl this user name) (authHeaders token)
    = Throw notFound ->
  got_get_repository P2 (repositoryUrl this user name) (authHeaders token)
    = Throw e ->
  transportOr5xx e = true ->
  fst (getRepository P0 this user name token w0) = Ok None
  /\ fst (getRepository P1 this user name token w1) = Throw notFound
  /\ fst (getRepository P2 this user name token w2) = Throw e
  /\ fst (getRepository P0 this user name token w0)
     <> fst (getRepository P2 this user name token w2)
  /\ fst (getRepository P1 this user name token w1)
     <> fst (getRepository P2 this user name token w2)
  /\ net (snd (getRepository P1 this user name token w1))
     = net w1 ++ [HttpGet (repositoryUrl this user name) (authHeaders token)].
Proof.
  intros H0 H1 H2 He.
  destruct (getRepository_outcome P0 this user name token w0) as (w0' & E0 & _).
  destruct (getRepository_outcome P1 this user name token w1) as (w1' & E1 & _ & _ & N1 & _).
  destruct (getRepository_outcome P2 this user name token w2) as (w2' & E2 & _).
  rewrite E0, E1, E2, H0, H1, H2. cbn [fst snd].
  split; [reflexivity|]. split; [reflexivity|]. split; [reflexivity|].
  split; [discriminate|]. split; [|exact N1].
  intros [= <-]. discriminate He.
Qed.

End FetchRepository.

Lemma getRepository_not_found_distinct_witness :
  fst (getRepository Demo.registry dockerAPI "nobody" "nothing" None Demo.emptyWorld)
    = Throw (HTTPError 404)
  /\ fst (getRepository Demo.offline dockerAPI "nobody" "nothing" None Demo.emptyWorld)
     = Throw (RequestError "ENOTFOUND")
  /\ fst (getRepository Demo.emptied dockerAPI "nobody" "nothing" None Demo.emptyWorld)
     = Ok None.
Proof.
  destruct (getRepository_not_found_distinct Demo.emptied Demo.registry Demo.offline
              dockerAPI "nobody" "nothing" None
              Demo.emptyWorld Demo.emptyWorld Demo.emptyWorld
              (RequestError "ENOTFOUND") eq_refl eq_refl eq_refl eq_refl)
    as (H0 & H1 & H2 & _).
  split; [exact H1|]. split; [exact H2 | exact H0].
Defined.

(** ** C1: detecting an update *)

Section UpdateDetection.

Variable P : Platform.

Lemma getTags_outcome this user name token w :
  exists w' nets logs,
    getTags P this user name token w
    = (tagsOutcome P this (tagsPath user name) token, w')
    /\ evolves w w' nets logs.
Proof.
  unfold getTags. fold (tagsPath user name).
  destruct (requestAllPages_outcome P this (tagsPath user name) token w)
    as (w' & logs & E & H).
  eexists w', _, logs. split; [exact E | exact H].
Qed.

(** A check never throws; it returns the result built from the fetched
    timestamp, or null when nothing was fetched. *)
Lemma checkRepository_outcome job cacheEntry token w :
  exists w' nets logs,
    checkRepository P job cacheEntry token w
    = (Ok (checkResult P job cacheEntry <$> fetchLastUpdated P (job_image job) token), w')
    /\ evolves w w' nets logs.
Proof.
  unfold checkRepository, fetchLastUpdated, try_catch.
  destruct (truthy (image_tag (job_image job))).
  - unfold bind.
    destruct (getTags_outcome dockerAPI (image_user (job_image job))
                (image_name (job_image job)) token w) as (w1 & n1 & l1 & E1 & H1).
    rewrite E1.
    destruct (tagsOutcome P dockerAPI _ token) as [tags|e].
    + destruct (find _ tags) as [tagInfo|].
      * eexists w1, _, _. split; [reflexivity | exact H1].
      * destruct (logger_run LError "Tag not found" w1) as (w2 & E2 & H2).
        rewrite E2. eexists w2, _, _. split; [reflexivity|].
        exact (evolves_trans _ _ _ _ _ _ _ H1 H2).
    + destruct (logger_run LError "Failed to check repository" w1) as (w2 & E2 & H2).
      unfold bind. rewrite E2. eexists w2, _, _. split; [reflexivity|].
      exact (evolves_trans _ _ _ _ _ _ _ H1 H2).
  - unfold bind.
    destruct (getRepository_outcome P dockerAPI (image_user (job_image job))
                (image_name (job_image job)) token w) as (w1 & E1 & H1).
    rewrite E1.
    destruct (got_get_repository P _ _) as [[info|]|e].
    + eexists w1, _, _. split; [reflexivity | exact H1].
    + destruct (logger_run LError "Repository not found" w1) as (w2 & E2 & H2).
      rewrite E2. eexists w2, _, _. split; [reflexivity|].
      exact (evolves_trans _ _ _ _ _ _ _ H1 H2).
    + destruct (logger_run LError "Failed to check repository" w1) as (w2 & E2 & H2).
      unfold bind. rewrite E2. eexists w2, _, _. split; [reflexivity|].
      exact (evolves_trans _ _ _ _ _ _ _ H1 H2).
Qed.

(** What the caller makes of the two signals: a null body is reported as
    "Repository not found", a rejected request (a 404 like any other failure)
    as "Failed to check repository"; both checks return null. *)
Lemma checkRepository_not_found_logs job cacheEntry token w :
  truthy (image_tag (job_image job)) = false ->
  (got_get_repository P
     (repositoryUrl dockerAPI (image_user (job_image job)) (image_name (job_image job)))
     (authHeaders token) = Ok None ->
   exists w', checkRepository P job cacheEntry token w = (Ok None, w')
              /\ log w' = log w ++ [logError "Repository not found"])
  /\ (forall e,
        got_get_repository P
          (repositoryUrl dockerAPI (image_user (job_image job)) (image_name (job_image job)))
          (authHeaders token) = Throw e ->
        exists w', checkRepository P job cacheEntry token w = (Ok None, w')
                   /\ log w' = log w ++ [requestFailed; checkFailed]).
Proof.
  intros Ht. unfold checkRepository, try_catch, bind. rewrite Ht.
  destruct (getRepository_outcome P dockerAPI (image_user (job_image job))
              (image_name (job_image job)) token w) as (w1 & E1 & H1).
  rewrite E1. split.
  - intros H. rewrite H in *. cbn [is_ok] in H1.
    destruct (logger_run LError "Repository not found" w1) as (w2 & E2 & H2).
    rewrite E2. exists w2. split; [reflexivity|].
    pose proof (evolves_trans _ _ _ _ _ _ _ H1 H2) as (_ & _ & _ & L). exact L.
  - intros e H. rewrite H in *. cbn [is_ok] in H1.
    destruct (logger_run LError "Failed to check repository" w1) as (w2 & E2 & H2).
    rewrite E2. exists w2. split; [reflexivity|].
    pose proof (evolves_trans _ _ _ _ _ _ _ H1 H2) as (_ & _ & _ & L). exact L.
Qed.

(** Reading an entry of a loaded value that is not [null]. *)
Lemma Cache_get_run (currentCache : CacheData) key w :
  currentCache <> JsonNull ->
  Cache_get currentCache key w = (Ok (entriesOf currentCache !! key), w).
Proof.
  intros H. destruct currentCache as [entries| |]; [reflexivity | contradiction |].
  cbn. unfold ret. rewrite lookup_empty. reflexivity.
Qed.

Lemma startChecks_outcome services (currentCache : CacheData) token w :
  currentCache <> JsonNull ->
  exists w' nets logs,
    startChecks P services currentCache token w
    = (Ok (map (fun service => Ok (checkOutcome P (entriesOf currentCache) token service))
               services), w')
    /\ evolves w w' nets logs.
Proof.
  intros Hc. revert w. induction services as [|service rest IH]; intros w; simpl.
  - eexists w, _, _. split; [reflexivity | apply evolves_refl].
  - unfold bind, spawn.
    destruct (logger_run Info "Checking image" w) as (w0 & E0 & H0). rewrite E0.
    rewrite (Cache_get_run _ _ _ Hc).
    destruct (checkRepository_outcome service
                (entriesOf currentCache !! getCacheKey (job_image service)) token w0)
      as (w1 & n1 & l1 & E1 & H1).
    rewrite E1. destruct (IH w1) as (w2 & n2 & l2 & E2 & H2). rewrite E2.
    eexists w2, _, _. split; [reflexivity|].
    exact (evolves_trans _ _ _ _ _ _ _ (evolves_trans _ _ _ _ _ _ _ H0 H1) H2).
Qed.

Lemma checkAll_outcome services (currentCache : CacheData) token w :
  currentCache <> JsonNull ->
  exists w' nets logs,
    checkAll P services currentCache token w
    = (Ok (map (checkOutcome P (entriesOf currentCache) token) services), w')
    /\ evolves w w' nets logs.
Proof.
  intros Hc. unfold checkAll, bind.
  destruct (startChecks_outcome services currentCache token w Hc) as (w' & n & l & E & H).
  rewrite E. unfold Promise_all, settle.
  rewrite <- (map_map (checkOutcome P (entriesOf currentCache) token) Ok),
    Promise_all_settled_ok.
  eexists w', _, _. split; [reflexivity | exact H].
Qed.

(** With no service there is nothing to read from the loaded value. *)
Lemma checkAll_nil (currentCache : CacheData) token w :
  checkAll P [] currentCache token w = (Ok [], w).
Proof. reflexivity. Qed.

(** Reading the entry of the first service from [null] throws, before any
    check is started. *)
Lemma checkAll_null service rest token w :
  exists w',
    checkAll P (service :: rest) JsonNull token w
    = (Throw (TypeError ("Cannot read properties of null (reading '"
                         +:+ getCacheKey (job_image service) +:+ "')")), w')
    /\ evolves w w' [] [logInfo "Checking image"].
Proof.
  destruct (logger_run Info "Checking image" w) as (w0 & E0 & H0).
  exists w0. split; [|exact H0].
  unfold checkAll. cbn [startChecks]. unfold bind. rewrite E0. reflexivity.
Qed.



End UpdateDetection.


(** ** The results of a cycle *)

Section Cycle.

Variable P : Platform.

Lemma omap_id_map {A B} (f : A -> option B) (l : list A) :
  omap id (map f l) = omap f l.
Proof.
  induction l as [|x l IH]; [reflexivity|].
  csimpl. unfold id at 1. destruct (f x); rewrite <- IH; reflexivity.
Qed.



Lemma obtainToken_outcome config w :
  exists w' nets logs,
    obtainToken P config w = (Ok (tokenOutcome P config), w')
    /\ evolves w w' nets logs.
Proof.
  unfold obtainToken, tokenOutcome.
  destruct (truthy (dockerHubUsername config) && truthy (dockerHubPassword config)).
  - unfold getToken, try_catch, bind, settle.
    match goal with |- context [emit ?ev w] =>
      destruct (emit_run ev w) as (w1 & E1 & H1) end.
    rewrite E1.
    destruct (got_post_login P _ _ _) as [token|e].
    + eexists w1, _, _. split; [reflexivity | exact H1].
    + destruct (logger_run LError "Failed to obtain Docker Hub token" w1) as (w2 & E2 & H2).
      rewrite E2. unfold throw.
      destruct (logger_run Warn
                  "Failed to obtain Docker Hub token, proceeding without authentication" w2)
        as (w3 & E3 & H3).
      rewrite E3. eexists w3, _, _. split; [reflexivity|].
      exact (evolves_trans _ _ _ _ _ _ _ (evolves_trans _ _ _ _ _ _ _ H1 H2) H3).
  - eexists w, _, _. split; [reflexivity | apply evolves_refl].
Qed.

End Cycle.

(** ** C5 and C9: the [$msg] placeholder *)

Lemma startsWith_split pat s :
  startsWith pat s = true -> s = pat +:+ drop (String.length pat) s.
Proof.
  revert s. induction pat as [|a pat IH]; intros s H; [reflexivity|].
  destruct s as [|b s]; [discriminate|]. simpl in H.
  apply andb_true_iff in H as [Hab Hp]. apply Ascii.eqb_eq in Hab as ->.
  simpl. f_equal. apply IH. exact Hp.
Qed.

Lemma startsWith_append pat rest : startsWith pat (pat +:+ rest) = true.
Proof.
  induction pat as [|a pat IH]; [reflexivity|].
  simpl. rewrite Ascii.eqb_refl. exact IH.
Qed.

(** [String_find] splits the string around an occurrence of the pattern. *)
Lemma String_find_split pat s before after :
  String_find pat s = Some (before, after) -> s = before +:+ pat +:+ after.
Proof.
  revert before after. induction s as [|c s IH]; intros before after.
  - simpl. destruct (startsWith pat EmptyString) eqn:Hp; [|discriminate].
    intros [= <- <-]. apply (startsWith_split _ _ Hp).
  - simpl. destruct (startsWith pat (String c s)) eqn:Hp.
    + intros [= <- <-]. apply (startsWith_split _ _ Hp).
    + destruct (String_find pat s) as [[b a]|] eqn:Hf; [|discriminate].
      intros [= <- <-]. simpl. f_equal. apply IH. reflexivity.
Qed.

(** The occurrence it finds is the first one. *)
Lemma String_find_first pat s before after before' after' :
  String_find pat s = Some (before, after) ->
  s = before' +:+ pat +:+ after' ->
  (String.length before <= String.length before')%nat.
Proof.
  revert before after before'. induction s as [|c s IH]; intros before after before'.
  - simpl. destruct (startsWith pat EmptyString); [|discriminate].
    intros [= <- <-] _. simpl. lia.
  - simpl. destruct (startsWith pat (String c s)) eqn:Hp.
    + intros [= <- <-] _. simpl. lia.
    + destruct (String_find pat s) as [[b a]|] eqn:Hf; [|discriminate].
      intros [= <- <-] Hs. destruct before' as [|c' before'].
      * simpl in Hs. rewrite Hs, startsWith_append in Hp. discriminate.
      * simpl in Hs. injection Hs as -> Hs. simpl.
        specialize (IH b a before' eq_refl Hs). lia.
Qed.

Lemma String_find_none pat s before after :
  String_find pat s = None -> s <> before +:+ pat +:+ after.
Proof.
  revert before. induction s as [|c s IH]; intros before.
  - simpl. destruct (startsWith pat EmptyString) eqn:Hp; [discriminate|].
    intros _ Hs. destruct before; simpl in Hs.
    + rewrite Hs, startsWith_append in Hp. discriminate.
    + discriminate.
  - simpl. destruct (startsWith pat (String c s)) eqn:Hp; [discriminate|].
    destruct (String_find pat s) as [[b a]|] eqn:Hf; [discriminate|].
    intros _ Hs. destruct before as [|c' before]; simpl in Hs.
    + rewrite Hs, startsWith_append in Hp. discriminate.
    + injection Hs as -> Hs. exact (IH before eq_refl Hs).
Qed.

(** A replacement text without a dollar sign stands for itself. *)
Lemma GetSubstitution_plain matched before after template :
  no_char "$" template -> GetSubstitution matched before after template = template.
Proof.
  induction template as [|c t IH]; intros H; [reflexivity|].
  apply no_char_cons in H as [Hc Ht]. specialize (IH Ht).
  cbn [GetSubstitution].
  destruct c as [[] [] [] [] [] [] [] []]; try (rewrite IH; reflexivity).
  contradiction Hc. reflexivity.
Qed.

Lemma String_replace_plain pat message s :
  no_char "$" message -> String_replace pat message s = replaceFirst pat message s.
Proof.
  intros H. unfold String_replace, replaceFirst.
  destruct (String_find pat s) as [[before after]|]; [|reflexivity].
  rewrite (GetSubstitution_plain _ _ _ _ H). reflexivity.
Qed.

Lemma replaceItem_plain message item :
  no_char "$" message -> replaceItem message item = substituteItem message item.
Proof.
  intros H. destruct item; try reflexivity.
  cbn [replaceItem substituteItem]. rewrite (String_replace_plain _ _ _ H). reflexivity.
Qed.

(** For a message without a dollar sign the substitution is literal: string
    members of an object body and string elements of an array body get the
    first [$msg] replaced by the message, other values are kept, and a null
    or absent body is returned as it is. *)
Lemma replaceMessagePlaceholders_plain (message : string) :
  no_char "$" message ->
  replaceMessagePlaceholders None message = None
  /\ replaceMessagePlaceholders (Some JNull) message = Some JNull
  /\ (forall s,
        replaceMessagePlaceholders (Some (JStr s)) message
        = Some (JStr (replaceFirst "$msg" message s)))
  /\ (forall items,
        replaceMessagePlaceholders (Some (JArr items)) message
        = Some (JArr (map (substituteItem message) items)))
  /\ (forall members,
        replaceMessagePlaceholders (Some (JObj members)) message
        = Some (JObj (map (fun '(key, value) => (key, substituteItem message value))
                          members))).
Proof.
  intros H. split; [reflexivity|]. split; [reflexivity|]. split; [|split].
  - intros s. cbn [replaceMessagePlaceholders].
    rewrite (String_replace_plain _ _ _ H). reflexivity.
  - intros items. cbn [replaceMessagePlaceholders]. do 2 f_equal.
    apply map_ext. intros item. apply (replaceItem_plain _ _ H).
  - intros members. cbn [replaceMessagePlaceholders]. do 2 f_equal.
    apply map_ext. intros [key value]. rewrite (replaceItem_plain _ _ H). reflexivity.
Qed.

(** For such a message only the first occurrence of [$msg] is touched: the
    text before it holds no earlier occurrence, and the text after it, with
    any further occurrence, is kept as it is. *)
Lemma String_replace_first_only message s before after :
  no_char "$" message ->
  String_find "$msg" s = Some (before, after) ->
  s = before +:+ "$msg" +:+ after
  /\ String_replace "$msg" message s = before +:+ message +:+ after
  /\ forall before' after',
       s = before' +:+ "$msg" +:+ after' ->
       (String.length before <= String.length before')%nat.
Proof.
  intros H Hf. split; [exact (String_find_split _ _ _ _ Hf)|]. split.
  - rewrite (String_replace_plain _ _ _ H). unfold replaceFirst. rewrite Hf. reflexivity.
  - intros before' after' Hs. exact (String_find_first _ _ _ _ _ _ Hf Hs).
Qed.

Example placeholder_object :
  replaceMessagePlaceholders (Some (JObj [("text", JStr "Update: $msg")])) "X"
  = Some (JObj [("text", JStr "Update: X")]).
Proof. reflexivity. Qed.

Example placeholder_null : replaceMessagePlaceholders (Some JNull) "X" = Some JNull.
Proof. reflexivity. Qed.

Example placeholder_array :
  replaceMessagePlaceholders (Some (JArr [JStr "a $msg"; JNum 3])) "X"
  = Some (JArr [JStr "a X"; JNum 3]).
Proof. reflexivity. Qed.

Example placeholder_twice :
  replaceMessagePlaceholders (Some (JStr "$msg and $msg")) "X" = Some (JStr "X and $msg").
Proof. reflexivity. Qed.

(** C5. The message is handed to [String.prototype.replace] as a replacement
    template, so a message that contains [$&] is not what ends up in the body.
    For an update of the image named [a$&b] and the body
    [{text: "Update: $msg"}], the text that comes back, and that the webhook
    request carries, names the image [a$msgb]; it is not the text with [$msg]
    replaced by the message. *)
Theorem replaceMessagePlaceholders_expands_template :
  replaceMessagePlaceholders (Some (JObj [("text", JStr "Update: $msg")]))
      (updateMessage dollarUpdate)
    = Some (JObj [("text",
                   JStr ("Update: Docker image 'a$msgb' was updated:" +:+ newline
                         +:+ "https://hub.docker.com/r/_/a$msgb/tags"))])
  /\ replaceFirst "$msg" (updateMessage dollarUpdate) "Update: $msg"
     = "Update: Docker image 'a$&b' was updated:" +:+ newline
       +:+ "https://hub.docker.com/r/_/a$&b/tags"
  /\ replaceMessagePlaceholders (Some (JObj [("text", JStr "Update: $msg")]))
       (updateMessage dollarUpdate)
     <> Some (JObj [("text",
                     JStr (replaceFirst "$msg" (updateMessage dollarUpdate)
                             "Update: $msg"))])
  /\ net (snd (webhook_execute Demo.registry Demo.hookAction dollarUpdate
                 Demo.config Demo.emptyWorld))
     = [HttpHook
          {| hook_url := "https://chat.example.com/hook";
             hook_method := POST;
             hook_headers := [];
             hook_json :=
               Some (JObj [("text",
                            JStr ("Update: Docker image 'a$msgb' was updated:" +:+ newline
                                  +:+ "https://hub.docker.com/r/_/a$msgb/tags"))]);
             hook_body := None |}].
Proof.
  split; [reflexivity|]. split; [reflexivity|]. split; [discriminate | reflexivity].
Qed.

(** C9. The first occurrence of [$msg] is replaced by the expansion of the
    message as a replacement template, not by the message. For an update of
    the image named [a$&b] and the string body [$msg and $msg], the request
    body starts with a text that names the image [a$msgb], where the message
    names it [a$&b]; the second [$msg] is left as it is. *)
Theorem String_replace_first_occurrence_template :
  net (snd (webhook_execute Demo.registry Demo.plainAction dollarUpdate
              Demo.config Demo.emptyWorld))
    = [HttpHook
         {| hook_url := "https://chat.example.com/plain";
            hook_method := POST;
            hook_headers := [];
            hook_json := None;
            hook_body :=
              Some ("Docker image 'a$msgb' was updated:" +:+ newline
                    +:+ "https://hub.docker.com/r/_/a$msgb/tags and $msg") |}]
  /\ replaceFirst "$msg" (updateMessage dollarUpdate) "$msg and $msg"
     = updateMessage dollarUpdate +:+ " and $msg"
  /\ replaceMessagePlaceholders (Some (JStr "$msg and $msg")) (updateMessage dollarUpdate)
     <> Some (JStr (updateMessage dollarUpdate +:+ " and $msg")).
Proof.
  split; [reflexivity|]. split; [reflexivity | discriminate].
Qed.

(** * Further properties *)

(** ** Image strings, identity keys and display names *)

Lemma no_char_append c a b : no_char c (a +:+ b) <-> no_char c a /\ no_char c b.
Proof.
  induction a as [|x a IH]; simpl.
  - split; [intros H; split; [apply no_char_nil | exact H] | intros [_ H]; exact H].
  - rewrite !no_char_cons, IH. tauto.
Qed.

(** No part of a split holds the separator, and a character absent from the
    string is absent from every part. *)
Lemma String_split_parts sep s :
  Forall (no_char sep) (String_split sep s).
Proof.
  induction s as [|c s IH]; simpl.
  - constructor; [apply no_char_nil | constructor].
  - destruct (Ascii.eqb_spec c sep) as [->|Hc].
    + constructor; [apply no_char_nil | exact IH].
    + destruct (String_split sep s) as [|p ps]; [constructor; [|constructor]|].
      * apply no_char_cons. split; [exact Hc | apply no_char_nil].
      * inversion IH; subst. constructor; [|assumption].
        apply no_char_cons. auto.
Qed.

Lemma String_split_keeps_absent c sep s :
  no_char c s -> Forall (no_char c) (String_split sep s).
Proof.
  induction s as [|x s IH]; intros H; simpl.
  - constructor; [apply no_char_nil | constructor].
  - apply no_char_cons in H as [Hx Hs]. specialize (IH Hs).
    destruct (Ascii.eqb x sep).
    + constructor; [apply no_char_nil | exact IH].
    + destruct (String_split sep s) as [|p ps]; [constructor; [|constructor]|].
      * apply no_char_cons. split; [exact Hx | apply no_char_nil].
      * inversion IH; subst. constructor; [|assumption].
        apply no_char_cons. auto.
Qed.

Lemma no_char_default c (parts : list string) i :
  Forall (no_char c) parts -> no_char c (default EmptyString (parts !! i)).
Proof.
  intros H. destruct (parts !! i) as [p|] eqn:E; simpl; [|apply no_char_nil].
  exact (proj1 (Forall_lookup _ _) H i p E).
Qed.

Lemma no_char_library : no_char "/" "library".
Proof.
  unfold no_char. simpl. repeat (apply not_elem_of_cons; split; [discriminate|]).
  apply not_elem_of_nil.
Qed.

(** X1. Whatever the configured string, the parsed image is well formed. *)
Theorem parseImageString_wellFormed (imageString : string) :
  wellFormed (parseImageString imageString).
Proof.
  unfold wellFormed, parseImageString. cbn [image_user image_name image_tag].
  pose proof (String_split_parts "/" imageString) as Hparts.
  set (parts := String_split "/" imageString) in *.
  set (nameWithTag := if (1 <? length parts)%nat
                      then default EmptyString (parts !! 1%nat)
                      else default EmptyString (parts !! 0%nat)).
  assert (Hn : no_char "/" nameWithTag).
  { unfold nameWithTag. destruct (1 <? length parts)%nat; apply no_char_default; exact Hparts. }
  pose proof (String_split_keeps_absent "/" ":" nameWithTag Hn) as Hslash.
  pose proof (String_split_parts ":" nameWithTag) as Hcolon.
  split; [|split; [|split]].
  - destruct (1 <? length parts)%nat; [apply no_char_default; exact Hparts|].
    exact no_char_library.
  - apply no_char_default. exact Hslash.
  - apply no_char_default. exact Hcolon.
  - destruct (1 <? length (String_split ":" nameWithTag))%nat; [|exact I].
    destruct (String_split ":" nameWithTag !! 1%nat) as [t|] eqn:E; [|exact I].
    split.
    + exact (proj1 (Forall_lookup _ _) Hslash 1%nat t E).
    + exact (proj1 (Forall_lookup _ _) Hcolon 1%nat t E).
Qed.

(** Parsing [user/rest] when neither part holds a '/'. *)
Lemma parseImageString_two user rest :
  no_char "/" user -> no_char "/" rest ->
  parseImageString (user +:+ "/" +:+ rest)
  = {| image_user := user;
       image_name := default EmptyString (String_split ":" rest !! 0%nat);
       image_tag := if (1 <? length (String_split ":" rest))%nat
                    then String_split ":" rest !! 1%nat else None |}.
Proof.
  intros Hu Hr. unfold parseImageString.
  change (user +:+ "/" +:+ rest) with (user +:+ String "/" rest).
  rewrite (String_split_segment "/" user rest Hu), (String_split_no_sep "/" rest Hr).
  reflexivity.
Qed.

Lemma parseImageString_one rest :
  no_char "/" rest ->
  parseImageString rest
  = {| image_user := "library";
       image_name := default EmptyString (String_split ":" rest !! 0%nat);
       image_tag := if (1 <? length (String_split ":" rest))%nat
                    then String_split ":" rest !! 1%nat else None |}.
Proof.
  intros Hr. unfold parseImageString. rewrite (String_split_no_sep "/" rest Hr).
  reflexivity.
Qed.

Lemma append_assoc' (a b c : string) : (a +:+ b) +:+ c = a +:+ (b +:+ c).
Proof. induction a as [|x a IH]; simpl; [reflexivity|]. rewrite IH. reflexivity. Qed.

Lemma getCacheKey_nameAndTag image :
  getCacheKey image = image_user image +:+ "/" +:+ nameAndTag image.
Proof.
  unfold getCacheKey, nameAndTag. destruct (truthy (image_tag image)); [|reflexivity].
  rewrite append_assoc'. reflexivity.
Qed.

Lemma getImageDisplayName_nameAndTag image :
  getImageDisplayName image
  = if String.eqb (image_user image) "library" then nameAndTag image
    else image_user image +:+ "/" +:+ nameAndTag image.
Proof.
  unfold getImageDisplayName, nameAndTag.
  destruct (String.eqb (image_user image) "library"), (truthy (image_tag image));
    try reflexivity.
  rewrite append_assoc'. reflexivity.
Qed.

Lemma nameAndTag_split image :
  wellFormed image ->
  no_char "/" (nameAndTag image)
  /\ default EmptyString (String_split ":" (nameAndTag image) !! 0%nat) = image_name image
  /\ (if (1 <? length (String_split ":" (nameAndTag image)))%nat
      then String_split ":" (nameAndTag image) !! 1%nat else None)
     = image_tag (normalize image).
Proof.
  intros (Hu & Hn & Hc & Ht). unfold nameAndTag, normalize. cbn [image_tag].
  destruct (image_tag image) as [[|c t]|]; cbn [truthy default from_option id].
  - rewrite (String_split_no_sep ":" _ Hc). auto.
  - destruct Ht as [Ht1 Ht2]. split.
    + apply no_char_append. split; [exact Hn|].
      apply no_char_cons. split; [discriminate | exact Ht1].
    + change (image_name image +:+ ":" +:+ String c t)
        with (image_name image +:+ String ":" (String c t)).
      rewrite (String_split_segment ":" _ _ Hc), (String_split_no_sep ":" _ Ht2). auto.
  - rewrite (String_split_no_sep ":" _ Hc). auto.
Qed.

(** X2. The identity key of a well-formed image parses back to that image
    (an empty tag counting as no tag). *)
Theorem parseImageString_getCacheKey (image : ParsedImage) :
  wellFormed image ->
  parseImageString (getCacheKey image) = normalize image.
Proof.
  intros H. destruct (nameAndTag_split image H) as (Hs & Hname & Htag).
  rewrite getCacheKey_nameAndTag.
  rewrite (parseImageString_two _ _ (proj1 H) Hs), Hname, Htag. reflexivity.
Qed.

Ltac no_char_concrete :=
  unfold no_char; simpl;
  repeat (apply not_elem_of_cons; split; [discriminate|]);
  apply not_elem_of_nil.

Ltac wellFormed_concrete :=
  match goal with
  | |- wellFormed ?image =>
      let parsed := eval vm_compute in image in change (wellFormed parsed)
  end;
  unfold wellFormed; cbn [image_user image_name image_tag];
  repeat split; no_char_concrete.

Lemma parseImageString_getCacheKey_witness :
  parseImageString (getCacheKey (parseImageString "redis:latest"))
  = normalize (parseImageString "redis:latest").
Proof.
  apply parseImageString_getCacheKey. wellFormed_concrete.
Defined.

(** X3. The display name of a well-formed image parses back to that image as
    well: leaving out the namespace "library" loses nothing. *)
Theorem parseImageString_getImageDisplayName (image : ParsedImage) :
  wellFormed image ->
  parseImageString (getImageDisplayName image) = normalize image.
Proof.
  intros H. destruct (nameAndTag_split image H) as (Hs & Hname & Htag).
  rewrite getImageDisplayName_nameAndTag.
  destruct (String.eqb_spec (image_user image) "library") as [Hl|_].
  - rewrite (parseImageString_one _ Hs), Hname, Htag. unfold normalize.
    rewrite Hl. reflexivity.
  - rewrite (parseImageString_two _ _ (proj1 H) Hs), Hname, Htag. reflexivity.
Qed.

Lemma parseImageString_getImageDisplayName_witness :
  parseImageString (getImageDisplayName (parseImageString "library/nginx:1.27"))
  = normalize (parseImageString "library/nginx:1.27").
Proof.
  apply parseImageString_getImageDisplayName. wellFormed_concrete.
Defined.

Lemma getCacheKey_normalize image : getCacheKey (normalize image) = getCacheKey image.
Proof.
  unfold getCacheKey, normalize. cbn [image_user image_name image_tag].
  destruct (image_tag image) as [[|c t]|]; reflexivity.
Qed.

(** X4. Two well-formed images with the same identity key are the same image
    (up to an empty tag): distinct tracked images never share a state entry. *)
Theorem getCacheKey_injective (image1 image2 : ParsedImage) :
  wellFormed image1 -> wellFormed image2 ->
  getCacheKey image1 = getCacheKey image2 ->
  normalize image1 = normalize image2.
Proof.
  intros H1 H2 Hk.
  assert (E : parseImageString (getCacheKey image1) = parseImageString (getCacheKey image2))
    by (rewrite Hk; reflexivity).
  destruct (nameAndTag_split image1 H1) as (Hs1 & Hn1 & Ht1).
  destruct (nameAndTag_split image2 H2) as (Hs2 & Hn2 & Ht2).
  rewrite !getCacheKey_nameAndTag in E.
  rewrite (parseImageString_two _ _ (proj1 H1) Hs1), Hn1, Ht1 in E.
  rewrite (parseImageString_two _ _ (proj1 H2) Hs2), Hn2, Ht2 in E.
  exact E.
Qed.

Lemma getCacheKey_injective_witness :
  normalize (parseImageString "nginx") = normalize (parseImageString "library/nginx:").
Proof.
  apply getCacheKey_injective; [wellFormed_concrete | wellFormed_concrete | reflexivity].
Defined.

(** ** The schema refinement and the start-up validation *)

Lemma flat_map_nil_iff {A B} (f : A -> list B) (l : list A) :
  flat_map f l = [] <-> forall x, x ∈ l -> f x = [].
Proof.
  induction l as [|a l IH]; simpl.
  - split; [intros _ x Hx; inversion Hx | reflexivity].
  - split.
    + intros H. apply app_eq_nil in H as [Ha Hl]. intros x Hx.
      apply elem_of_cons in Hx as [->|Hx]; [exact Ha | exact (proj1 IH Hl x Hx)].
    + intros H. rewrite (H a) by (apply elem_of_cons; auto). simpl.
      apply IH. intros x Hx. apply H. apply elem_of_cons. auto.
Qed.

Lemma refineAction_nil config action :
  action_type action = "webHook" \/ action_type action = "mailHook" ->
  (refineAction config action = [] <-> instanceDefined config action = true).
Proof.
  unfold refineAction, instanceDefined. intros [Ht|Ht]; rewrite Ht;
    cbn [String.eqb Ascii.eqb Bool.eqb].
  - destruct (Optional_get (webHooks config) _); split; (reflexivity || discriminate).
  - destruct (Optional_get (smtpServer config) _); split; (reflexivity || discriminate).
Qed.

(** X5. For a configuration whose actions are all of kind [webHook] or
    [mailHook] (the kinds the schema admits), the schema refinement adds no
    issue exactly when [validateAllActions] of the built-in registry answers
    true: a configuration the schema lets through is never turned down by the
    start-up validation. *)
Theorem superRefine_agrees_with_validateAllActions (P : Platform) (config : Config) :
  (forall service action,
     service ∈ notifyServices config -> action ∈ service_actions service ->
     action_type action = "webHook" \/ action_type action = "mailHook") ->
  (superRefine config = [] <-> validateAllActions (actionRegistry P) config = true).
Proof.
  intros Hkinds. unfold superRefine, validateAllActions.
  rewrite validateServices_true, flat_map_nil_iff. split.
  - intros H service Hs action Ha. apply accepted_built_in.
    apply refineAction_nil; [exact (Hkinds service action Hs Ha)|].
    exact (proj1 (flat_map_nil_iff _ _) (H service Hs) action Ha).
  - intros H service Hs. apply flat_map_nil_iff. intros action Ha.
    apply refineAction_nil; [exact (Hkinds service action Hs Ha)|].
    apply (accepted_built_in P). exact (H service Hs action Ha).
Qed.

Lemma superRefine_agrees_with_validateAllActions_witness :
  superRefine Demo.config = []
  <-> validateAllActions (actionRegistry Demo.registry) Demo.config = true.
Proof.
  apply superRefine_agrees_with_validateAllActions.
  intros service action Hs Ha.
  apply elem_of_cons in Hs as [->|Hs].
  - apply elem_of_cons in Ha as [->|Ha]; [left; reflexivity|].
    apply elem_of_cons in Ha as [->|Ha]; [right; reflexivity | inversion Ha].
  - apply elem_of_cons in Hs as [->|Hs]; [|inversion Hs].
    apply elem_of_cons in Ha as [->|Ha]; [left; reflexivity | inversion Ha].
Defined.

(** ** The mail handler and its transporters *)

(** X6. A transporter is created on the first request for an instance name
    and reused from then on, whatever configuration later requests pass;
    other instance names are not affected, and after
    [clearTransporterCache] the next request creates a transporter from the
    configuration it is given. *)
Theorem getTransporter_reuses (instanceName : string)
    (smtpConfig smtpConfig' : SmtpServerConfig) (w : World) :
  exists transporter w1,
    getTransporter instanceName smtpConfig w = (Ok transporter, w1)
    /\ (transporterCache w !! instanceName = None ->
        transporter = createTransport smtpConfig)
    /\ getTransporter instanceName smtpConfig' w1 = (Ok transporter, w1)
    /\ (forall other, other <> instanceName ->
          transporterCache w1 !! other = transporterCache w !! other)
    /\ (exists w2 w3,
          clearTransporterCache w1 = (Ok tt, w2)
          /\ getTransporter instanceName smtpConfig' w2
             = (Ok (createTransport smtpConfig'), w3)).
Proof.
  unfold getTransporter at 1.
  destruct (transporterCache w !! instanceName) as [cached|] eqn:E.
  - exists cached, w. split; [reflexivity|]. split; [discriminate|]. split.
    + unfold getTransporter. rewrite E. reflexivity.
    + split; [reflexivity|]. eexists _, _. split; [reflexivity|].
      unfold getTransporter. cbn [transporterCache]. rewrite lookup_empty. reflexivity.
  - eexists _, _. split; [reflexivity|]. split; [reflexivity|]. split.
    + unfold getTransporter. cbn [transporterCache]. rewrite lookup_insert_eq. reflexivity.
    + split.
      * intros other Hne. cbn [transporterCache]. apply lookup_insert_ne. congruence.
      * eexists _, _. split; [reflexivity|].
        unfold getTransporter. cbn [transporterCache]. rewrite lookup_empty. reflexivity.
Qed.

(** In a map that has no entry under it, a name of [Object.prototype] gives
    the inherited value. *)
Lemma Optional_get_inherited {A} (members : gmap string A) key :
  members !! key = None -> key ∈ Object_prototype_names ->
  Optional_get (Some members) key = Inherited.
Proof.
  intros He Hin. cbn. unfold Object_get.
  rewrite He, bool_decide_eq_true_2 by exact Hin. reflexivity.
Qed.

(** The lookup gives nothing when the map itself is absent, and when it has no
    entry under a name that [Object.prototype] does not define. *)
Lemma Optional_get_nothing {A} (obj : option (gmap string A)) key :
  obj ≫= (fun members => members !! key) = None ->
  obj = None \/ key ∉ Object_prototype_names ->
  Optional_get obj key = Undefined.
Proof.
  intros He [->|Hn]; [reflexivity|]. rewrite (Optional_get_own _ _ Hn), He. reflexivity.
Qed.

Lemma toString_inherited : "toString" ∈ Object_prototype_names.
Proof.
  unfold Object_prototype_names. do 8 apply list_elem_of_further. apply list_elem_of_here.
Qed.

(** An entry under the instance name is what the lookup gives. *)
Lemma Optional_get_entry {A} (obj : option (gmap string A)) key a :
  obj ≫= (fun members => members !! key) = Some a -> Optional_get obj key = Own a.
Proof.
  destruct obj as [members|]; [|discriminate]. cbn. intros H.
  unfold Object_get. rewrite H. reflexivity.
Qed.

(** X7. The mail handler verifies the connection before it submits. Whenever
    the lookup of the instance gives something there is one verification,
    followed by one submission only when the verification succeeded, through
    the transporter of that instance, which is in the cache afterwards. So
    it is for a configured server, and so it is for a name such as
    [toString] that has no entry but is inherited from [Object.prototype]:
    the transporter is then created from options that are all [undefined].
    When [smtpServer] is absent, or has no entry under a name that
    [Object.prototype] does not define, there is no SMTP traffic and no
    transporter is created. *)
Theorem mail_execute_verifies_first (P : Platform) (action : Action)
    (updateInfo : UpdateInfo) (config : Config) (w : World) :
  let entry := smtpServer config ≫= (fun servers => servers !! action_instance action) in
  let verifiedThenSent smtpConfig w' :=
    let transporter := usedTransporter w (action_instance action) smtpConfig in
    net w' = net w ++
             SmtpVerify transporter ::
             (if is_ok (transporter_verify P transporter)
              then [SmtpSend transporter (mailOptionsFor smtpConfig action updateInfo)]
              else [])
    /\ transporterCache w' !! action_instance action = Some transporter in
  exists w',
    mail_execute P action updateInfo config w = (Ok tt, w')
    /\ (forall smtpConfig, entry = Some smtpConfig ->
          verifiedThenSent (fieldsOf smtpConfig) w')
    /\ (forall servers,
          smtpServer config = Some servers ->
          servers !! action_instance action = None ->
          action_instance action ∈ Object_prototype_names ->
          verifiedThenSent noFields w'
          /\ (transporterCache w !! action_instance action = None ->
              transporterCache w' !! action_instance action
              = Some {| transport_pool := true; transport_host := None;
                        transport_port := None; transport_secure := None;
                        transport_auth := None |}))
    /\ (entry = None ->
        smtpServer config = None \/ action_instance action ∉ Object_prototype_names ->
        net w' = net w /\ transporterCache w' = transporterCache w).
Proof.
  cbn zeta.
  destruct (mail_execute_outcome P action updateInfo config w) as (w' & E & _ & H).
  exists w'. split; [exact E|]. split; [|split].
  - intros smtpConfig He. rewrite (Optional_get_entry _ _ _ He) in H.
    destruct H as (_ & N & T). split; [exact N|].
    rewrite T. apply lookup_insert_eq.
  - intros servers Hs He Hin.
    rewrite Hs, (Optional_get_inherited _ _ He Hin) in H. destruct H as (_ & N & T).
    split; [split; [exact N | rewrite T; apply lookup_insert_eq]|].
    intros Hc. rewrite T, lookup_insert_eq. unfold usedTransporter. rewrite Hc. reflexivity.
  - intros He Hn. rewrite (Optional_get_nothing _ _ He Hn) in H.
    destruct H as (_ & T & N & _). rewrite app_nil_r in N. auto.
Qed.

Lemma mail_execute_verifies_first_witness :
  exists w',
    mail_execute Demo.registry toStringMail dollarUpdate Demo.config Demo.emptyWorld
    = (Ok tt, w')
    /\ length (net w') = 2%nat
    /\ transporterCache w' !! "toString"
       = Some {| transport_pool := true; transport_host := None;
                 transport_port := None; transport_secure := None;
                 transport_auth := None |}.
Proof.
  destruct (mail_execute_verifies_first Demo.registry toStringMail dollarUpdate
              Demo.config Demo.emptyWorld) as (w' & E & _ & H & _).
  destruct (H {[ "relay" := Demo.relay ]} eq_refl eq_refl
              toString_inherited) as ((N & _) & T).
  exists w'. split; [exact E|]. split; [rewrite N; reflexivity | exact (T eq_refl)].
Defined.

(** ** The webhook handler *)

(** The message of an update is never empty, so a string body that is not
    empty is not empty after the substitution either. *)
Lemma String_replace_nonempty updateInfo s :
  s <> EmptyString -> String_replace "$msg" (updateMessage updateInfo) s <> EmptyString.
Proof.
  intros Hs. unfold String_replace.
  destruct (String_find "$msg" s) as [[before after]|]; [|exact Hs].
  unfold updateMessage. cbn [String.append GetSubstitution].
  destruct before; discriminate.
Qed.

(** X8. The webhook handler sends exactly one request for a configured
    instance, whether or not it succeeds: to the configured address, with the
    configured method, with the headers of the configuration when they are a
    record and none otherwise, and with the body after substitution, an array
    or object as JSON, a non-empty string as text, and a null, absent or
    empty-string body as neither, so that the request never carries both.
    For a name without entry in [webHooks] that is inherited from
    [Object.prototype] it calls [got] without an address; when [webHooks] is
    absent, or has no entry under any other name, it sends nothing. *)
Theorem webhook_execute_request (P : Platform) (action : Action)
    (updateInfo : UpdateInfo) (config : Config) (w : World) :
  let entry := webHooks config ≫= (fun hooks => hooks !! action_instance action) in
  let message := updateMessage updateInfo in
  exists w',
    webhook_execute P action updateInfo config w = (Ok tt, w')
    /\ (forall webhookConfig, entry = Some webhookConfig ->
        exists request,
          net w' = net w ++ [HttpHook request]
          /\ hook_url request = reqUrl webhookConfig
          /\ hook_method request = httpMethod webhookConfig
          /\ (hook_json request = None \/ hook_body request = None)
          /\ (httpBody webhookConfig = None \/ httpBody webhookConfig = Some JNull
              \/ httpBody webhookConfig = Some (JStr EmptyString) ->
              hook_json request = None /\ hook_body request = None)
          /\ (forall items, httpBody webhookConfig = Some (JArr items) ->
                hook_json request = Some (JArr (map (replaceItem message) items))
                /\ hook_body request = None)
          /\ (forall members, httpBody webhookConfig = Some (JObj members) ->
                hook_json request
                = Some (JObj (map (fun '(key, value) => (key, replaceItem message value))
                                  members))
                /\ hook_body request = None)
          /\ (forall text, httpBody webhookConfig = Some (JStr text) ->
                text <> EmptyString ->
                hook_body request = Some (String_replace "$msg" message text)
                /\ hook_json request = None)
          /\ (forall headers, httpHeaders webhookConfig = HeadersRecord headers ->
                hook_headers request = headers)
          /\ ((forall headers, httpHeaders webhookConfig <> HeadersRecord headers) ->
              hook_headers request = []))
    /\ (forall hooks,
          webHooks config = Some hooks ->
          hooks !! action_instance action = None ->
          action_instance action ∈ Object_prototype_names ->
          net w' = net w ++ [HttpHookUndefined])
    /\ (entry = None ->
        webHooks config = None \/ action_instance action ∉ Object_prototype_names ->
        net w' = net w).
Proof.
  cbn zeta.
  destruct (webhook_execute_outcome P action updateInfo config w) as (w' & E & H).
  exists w'. split; [exact E|]. split; [|split].
  - intros webhookConfig He. rewrite (Optional_get_entry _ _ _ He) in H.
    destruct H as (_ & _ & N & _).
    eexists. split; [exact N|]. split; [reflexivity|]. split; [reflexivity|].
    unfold webhookRequest. cbn [hook_json hook_body hook_headers].
    split; [|split; [|split; [|split; [|split; [|split]]]]].
    + destruct (replaceMessagePlaceholders _ _) as [[]|]; auto.
    + intros [Hb|[Hb|Hb]]; rewrite Hb; split; reflexivity.
    + intros items Hb. rewrite Hb. split; reflexivity.
    + intros members Hb. rewrite Hb. split; reflexivity.
    + intros text Hb Hne. rewrite Hb. cbn [replaceMessagePlaceholders].
      pose proof (String_replace_nonempty updateInfo text Hne) as Hr.
      destruct (String_replace "$msg" (updateMessage updateInfo) text);
        [contradiction | split; reflexivity].
    + intros headers Hh. rewrite Hh. reflexivity.
    + intros Hh. destruct (httpHeaders webhookConfig) as [h| | |]; try reflexivity.
      contradiction (Hh h). reflexivity.
  - intros hooks Hs He Hin.
    rewrite Hs, (Optional_get_inherited _ _ He Hin) in H. apply H.
  - intros He Hn. rewrite (Optional_get_nothing _ _ He Hn) in H.
    destruct H as (_ & _ & N & _). rewrite app_nil_r in N. exact N.
Qed.

(** ** Authentication *)

(** X9. Obtaining the token never throws. Without both credentials (a missing
    or empty user name or password) no request is made and there is no token;
    with them exactly one login request is made, with the user name in lower
    case and the password as it is, and a rejected login leaves the cycle
    without a token after one error and one warning. *)
Theorem obtainToken_never_fatal (P : Platform) (config : Config) (w : World) :
  let url := baseUrl dockerAPI +:+ "/v2/users/login" in
  let username := default EmptyString (dockerHubUsername config) in
  let password := default EmptyString (dockerHubPassword config) in
  exists token w',
    obtainToken P config w = (Ok token, w')
    /\ same_store w w'
    /\ if truthy (dockerHubUsername config) && truthy (dockerHubPassword config)
       then
         net w' = net w ++ [HttpPostLogin url (String_toLowerCase username) password]
         /\ match got_post_login P url (String_toLowerCase username) password with
            | Ok t => token = Some t /\ log w' = log w
            | Throw _ =>
                token = None
                /\ log w' = log w ++
                     [logError "Failed to obtain Docker Hub token";
                      {| level := Warn;
                         msg := "Failed to obtain Docker Hub token, proceeding without authentication" |}]
            end
       else token = None /\ net w' = net w /\ log w' = log w.
Proof.
  intros url username password. unfold obtainToken.
  destruct (truthy (dockerHubUsername config) && truthy (dockerHubPassword config)).
  - unfold getToken, try_catch, bind, settle. fold url username password.
    destruct (emit_run (HttpPostLogin url (String_toLowerCase username) password) w)
      as (w1 & E1 & H1).
    rewrite E1.
    destruct (got_post_login P url (String_toLowerCase username) password) as [t|e].
    + exists (Some t), w1. split; [reflexivity|].
      split; [exact (evolves_same_store _ _ _ _ H1)|].
      destruct H1 as (_ & _ & N & L). rewrite app_nil_r in L. auto.
    + destruct (logger_run LError "Failed to obtain Docker Hub token" w1) as (w2 & E2 & H2).
      rewrite E2. unfold throw.
      destruct (logger_run Warn
                  "Failed to obtain Docker Hub token, proceeding without authentication" w2)
        as (w3 & E3 & H3).
      rewrite E3. exists None, w3. split; [reflexivity|].
      pose proof (evolves_trans _ _ _ _ _ _ _ (evolves_trans _ _ _ _ _ _ _ H1 H2) H3) as H.
      split; [exact (evolves_same_store _ _ _ _ H)|].
      destruct H as (_ & _ & N & L). split; [exact N|]. split; [reflexivity | exact L].
  - exists None, w. split; [reflexivity|]. split; [split; reflexivity|]. auto.
Qed.

(** ** The loop over the results of a cycle *)


Lemma processResults_none_updated newCache updatedRepos validResults :
  (forall r, r ∈ validResults -> result_updated r = false) ->
  snd (processResults newCache updatedRepos validResults) = updatedRepos.
Proof.
  revert newCache.
  induction validResults as [|result rest IH]; intros newCache H; [reflexivity|].
  simpl. rewrite (H result) by (apply elem_of_cons; auto).
  apply IH. intros r Hr. apply H. apply elem_of_cons. auto.
Qed.

(** X10. The loop over the valid results writes one state entry per result,
    later results overwriting earlier ones with the same key, and appends to
    the updates exactly the results flagged as updated, in the order of the
    results, each with its display name and its Docker Hub address. *)
Theorem processResults_spec (newCache : gmap string CacheEntry)
    (updatedRepos : list (RepositoryCheckResult * UpdateInfo))
    (validResults : list RepositoryCheckResult) :
  fst (processResults newCache updatedRepos validResults)
    = foldl (fun cache result =>
               <[getCacheKey (job_image (result_job result)) := cacheEntryOf result]> cache)
            newCache validResults
  /\ snd (processResults newCache updatedRepos validResults)
     = updatedRepos
       ++ map (fun result =>
                 (result,
                  {| imageName := getImageDisplayName (job_image (result_job result));
                     imageUrl := getDockerHubUrl (job_image (result_job result));
                     info_lastUpdated := result_lastUpdated result |}))
              (List.filter result_updated validResults).
Proof.
  revert newCache updatedRepos.
  induction validResults as [|result rest IH]; intros newCache updatedRepos; simpl.
  - rewrite app_nil_r. auto.
  - destruct (result_updated result); simpl.
    + destruct (IH (<[getCacheKey (job_image (result_job result)) := cacheEntryOf result]>
                      newCache)
                   (updatedRepos ++ [(result, updateInfoOf result)])) as [Hf Hs].
      rewrite Hf, Hs, <- app_assoc. auto.
    + apply IH.
Qed.

(** ** Loading the state *)

(** X11. Loading the state never rewrites a file that exists: its content is
    left as it is even when it does not parse, and the mapping returned is
    the parsed content, or the empty mapping for content that does not
    parse. *)
Theorem getCache_keeps_existing_file (P : Platform) (w : World) (data : string) :
  stored w = Some data ->
  exists w',
    getCache P w = (Ok (default ∅ (JSON_parse P data)), w')
    /\ fs w' = fs w /\ net w' = net w
    /\ transporterCache w' = transporterCache w.
Proof.
  intros Hs. destruct (JSON_parse P data) as [cache|] eqn:Hp.
  - exists w. rewrite (getCache_parsed P w data cache Hs Hp). auto.
  - destruct (getCache_corrupt P w data Hs Hp) as (w' & E & F & T & N & _).
    exists w'. rewrite app_nil_r in N. auto.
Qed.

Lemma getCache_keeps_existing_file_witness :
  exists w',
    getCache Demo.registry (Demo.worldWithFile "invalid json {{{") = (Ok ∅, w')
    /\ fs w' = fs (Demo.worldWithFile "invalid json {{{").
Proof.
  destruct (getCache_keeps_existing_file Demo.registry
              (Demo.worldWithFile "invalid json {{{") "invalid json {{{" eq_refl)
    as (w' & E & F & _).
  exists w'. split; [exact E | exact F].
Defined.

(** ** Registry traffic and notification traffic *)

Lemma quiet_notifications {A} (m : M A) w :
  quiet m ->
  notifications (snd (m w)) = notifications w /\ same_store w (snd (m w)).
Proof.
  intros H. destruct (H w) as (nets & logs & Hev & Hq).
  split; [|exact (evolves_same_store _ _ _ _ Hev)].
  assert (Hf : List.filter isNotification nets = []).
  { clear Hev. induction Hq as [|ev nets Hev' _ IH]; [reflexivity|].
    simpl. rewrite Hev'. exact IH. }
  destruct Hev as (_ & _ & N & _). unfold notifications.
  rewrite N, List.filter_app, Hf, app_nil_r. reflexivity.
Qed.

Lemma quiet_ret {A} (a : A) : quiet (ret a).
Proof. intros w. exists [], []. split; [apply evolves_refl | constructor]. Qed.

Lemma quiet_throw {A} e : quiet (@throw A e).
Proof. intros w. exists [], []. split; [apply evolves_refl | constructor]. Qed.

Lemma quiet_settle {A} (r : result A) : quiet (settle r).
Proof. intros w. exists [], []. split; [apply evolves_refl | constructor]. Qed.

Lemma quiet_logger lv message : quiet (logger lv message).
Proof.
  intros w. destruct (logger_run lv message w) as (w' & E & H). rewrite E.
  eexists [], _. split; [exact H | constructor].
Qed.

Lemma quiet_emit ev : isNotification ev = false -> quiet (emit ev).
Proof.
  intros Hev w. destruct (emit_run ev w) as (w' & E & H). rewrite E.
  eexists _, []. split; [exact H|]. constructor; [exact Hev | constructor].
Qed.

Lemma quiet_bind {A B} (m : M A) (k : A -> M B) :
  quiet m -> (forall a, quiet (k a)) -> quiet (bind m k).
Proof.
  intros Hm Hk w. unfold bind. destruct (Hm w) as (n1 & l1 & H1 & Q1).
  destruct (m w) as [[a|e] w1]; cbn [snd] in *.
  - destruct (Hk a w1) as (n2 & l2 & H2 & Q2).
    exists (n1 ++ n2), (l1 ++ l2).
    split; [exact (evolves_trans _ _ _ _ _ _ _ H1 H2) | apply Forall_app; auto].
  - exists n1, l1. auto.
Qed.

Lemma quiet_try_catch {A} (m : M A) (handler : JsError -> M A) :
  quiet m -> (forall e, quiet (handler e)) -> quiet (try_catch m handler).
Proof.
  intros Hm Hh w. unfold try_catch. destruct (Hm w) as (n1 & l1 & H1 & Q1).
  destruct (m w) as [[a|e] w1]; cbn [snd] in *.
  - exists n1, l1. auto.
  - destruct (Hh e w1) as (n2 & l2 & H2 & Q2).
    exists (n1 ++ n2), (l1 ++ l2).
    split; [exact (evolves_trans _ _ _ _ _ _ _ H1 H2) | apply Forall_app; auto].
Qed.

Lemma quiet_spawn {A} (m : M A) : quiet m -> quiet (spawn m).
Proof.
  intros Hm w. unfold spawn. destruct (Hm w) as (n1 & l1 & H1 & Q1).
  destruct (m w) as [r w1]. exists n1, l1. auto.
Qed.

Lemma quiet_spawn_each {A B} (xs : list A) (start : A -> M B) :
  (forall x, quiet (start x)) -> quiet (spawn_each xs start).
Proof.
  intros H. induction xs as [|x xs IH]; simpl; [apply quiet_ret|].
  apply quiet_bind; [apply quiet_spawn, H|]. intros p.
  apply quiet_bind; [exact IH|]. intros ps. apply quiet_ret.
Qed.

Lemma quiet_Promise_all {A} (promises : list (Promise A)) : quiet (Promise_all promises).
Proof. apply quiet_settle. Qed.

Create HintDb quiet.
#[local] Hint Resolve quiet_ret quiet_throw quiet_settle quiet_logger quiet_spawn
  quiet_Promise_all : quiet.

Ltac quiet_step :=
  first
    [ solve [auto with quiet]
    | apply quiet_emit; reflexivity
    | apply quiet_bind; [|intros ?]
    | apply quiet_try_catch; [|intros ?]
    | apply quiet_spawn_each; intros ?
    | match goal with
      | |- quiet (if ?b then _ else _) => destruct b
      | |- quiet (match ?x with _ => _ end) => destruct x
      end ].

Lemma quiet_makeRequest {T} (got_get : string -> list (string * string) -> result T)
    url token :
  quiet (makeRequest got_get url token).
Proof. unfold makeRequest. repeat quiet_step. Qed.

#[local] Hint Resolve quiet_makeRequest : quiet.

Lemma quiet_getTags P this user name token : quiet (getTags P this user name token).
Proof. unfold getTags, requestAllPages. repeat quiet_step. Qed.

Lemma quiet_getRepository P this user name token :
  quiet (getRepository P this user name token).
Proof. unfold getRepository. repeat quiet_step. Qed.

#[local] Hint Resolve quiet_getTags quiet_getRepository : quiet.

Lemma quiet_checkRepository P job cacheEntry token :
  quiet (checkRepository P job cacheEntry token).
Proof. unfold checkRepository. repeat quiet_step. Qed.

Lemma quiet_checkAll P services currentCache token :
  quiet (checkAll P services currentCache token).
Proof.
  unfold checkAll. apply quiet_bind; [|intros; apply quiet_Promise_all].
  induction services as [|service rest IH]; simpl; [apply quiet_ret|].
  apply quiet_bind; [apply quiet_logger|]. intros _.
  apply quiet_bind.
  { destruct currentCache; [apply quiet_ret | apply quiet_throw | apply quiet_ret]. }
  intros cacheEntry.
  apply quiet_bind; [apply quiet_spawn, quiet_checkRepository|]. intros promise.
  apply quiet_bind; [exact IH|]. intros ps. apply quiet_ret.
Qed.

Lemma quiet_obtainToken P config : quiet (obtainToken P config).
Proof. unfold obtainToken, getToken. repeat quiet_step. Qed.

(** ** Whole cycles *)

Section Cycles.

Variable P : Platform.

(** Loading the state: the value [loadedCache] describes, unless there is no
    file and none can be written. *)
Lemma getCache_run w :
  exists r w',
    getCache P w = (r, w')
    /\ net w' = net w /\ transporterCache w' = transporterCache w
    /\ ((r = Ok (loadedCache P w)
         /\ canWrite (fs w') = canWrite (fs w)
         /\ (fs w' = fs w \/ (stored w = None /\ canWrite (fs w) = true)))
        \/ ((exists code, r = Throw (ErrnoException code))
            /\ canWrite (fs w) = false /\ stored w' = stored w)).
Proof.
  unfold loadedCache. destruct (stored w) as [data|] eqn:Hs.
  - destruct (JSON_parse P data) as [cache|] eqn:Hp.
    + exists (Ok cache), w. rewrite (getCache_parsed P w data cache Hs Hp).
      split; [reflexivity|]. split; [reflexivity|]. split; [reflexivity|]. left. auto.
    + destruct (getCache_corrupt P w data Hs Hp) as (w' & E & F & T & N & _).
      exists (Ok ∅), w'. rewrite app_nil_r in N.
      split; [exact E|]. split; [exact N|]. split; [exact T|]. left.
      rewrite F. auto.
  - destruct (getCache_absent P w Hs) as (r & w' & E & _ & N & T & Hr).
    exists r, w'. split; [exact E|]. split; [exact N|]. split; [exact T|].
    destruct (canWrite (fs w)) eqn:Hc.
    + left. destruct Hr as (-> & _ & Hc'). auto.
    + right. destruct Hr as (Hthrow & Hs' & _). rewrite Hs'. auto.
Qed.

(** The checks of a cycle: one outcome per service when the loaded value can
    be read, and an exception otherwise; no notification either way. *)
Lemma checkAll_run services (loaded : CacheData) token w :
  exists r w',
    checkAll P services loaded token w = (r, w')
    /\ same_store w w' /\ notifications w' = notifications w
    /\ if readable loaded services
       then r = Ok (map (checkOutcome P (entriesOf loaded) token) services)
       else exists e, r = Throw e.
Proof.
  destruct (quiet_notifications (checkAll P services loaded token) w
              (quiet_checkAll P services loaded token)) as [Q S].
  destruct (checkAll P services loaded token w) as [r w'] eqn:E. cbn [snd] in Q, S.
  exists r, w'. split; [reflexivity|]. split; [exact S|]. split; [exact Q|].
  destruct loaded as [entries| |].
  - destruct (checkAll_outcome P services (Mapping entries) token w ltac:(discriminate))
      as (w0 & _ & _ & E0 & _).
    rewrite E0 in E. injection E as <- _. reflexivity.
  - destruct services as [|service rest]; cbn [readable].
    + rewrite checkAll_nil in E. injection E as <- _. reflexivity.
    + destruct (checkAll_null P service rest token w) as (w0 & E0 & _).
      rewrite E0 in E. injection E as <- _. eauto.
  - destruct (checkAll_outcome P services JsonScalar token w ltac:(discriminate))
      as (w0 & _ & _ & E0 & _).
    rewrite E0 in E. injection E as <- _. reflexivity.
Qed.

(** The end of a cycle: announcing the updates and notifying, or announcing
    that there is none. *)
Lemma notifyPhase_run config (updatedRepos : list (RepositoryCheckResult * UpdateInfo)) w :
  exists w',
    (if (0 <? length updatedRepos)%nat
     then logger Info "Updates detected" ;; notifyAll P config updatedRepos
     else logger Info "No updates found") w = (Ok tt, w')
    /\ fs w' = fs w
    /\ (updatedRepos = [] -> notifications w' = notifications w).
Proof.
  destruct updatedRepos as [|update rest]; cbn [length Nat.ltb Nat.leb].
  - destruct (logger_run Info "No updates found" w) as (w1 & E1 & F & _ & N & _).
    exists w1. split; [exact E1|]. split; [exact F|]. intros _.
    unfold notifications. rewrite N, app_nil_r. reflexivity.
  - unfold bind.
    destruct (logger_run Info "Updates detected" w) as (w1 & E1 & F & _). rewrite E1.
    destruct (notifyAll_run P config (update :: rest) w1) as (w2 & E2 & F2 & _).
    exists w2. split; [exact E2|]. split; [congruence | discriminate].
Qed.

(** A cycle, step by step. It completes when the state file can be written
    and the loaded value can be read; the state file then holds the new
    state, and nothing was sent unless there were updates. Otherwise it
    throws, the state file is left as it was and nothing was sent. *)
Lemma checkForUpdates_run config services w :
  let loaded := loadedCache P w in
  let currentCache := entriesOf loaded in
  exists r w',
    checkForUpdates P config services w = (r, w')
    /\ if canWrite (fs w) && readable loaded services
       then r = Ok tt
            /\ stored w' = Some (JSON_stringify P
                                   (cycleState P config services currentCache))
            /\ canWrite (fs w') = true
            /\ (cycleUpdates P config services currentCache = [] ->
                notifications w' = notifications w)
       else (exists e, r = Throw e)
            /\ stored w' = stored w
            /\ notifications w' = notifications w
            /\ transporterCache w' = transporterCache w.
Proof.
  cbn zeta. unfold checkForUpdates, bind.
  destruct (obtainToken_outcome P config w) as (w1 & n1 & l1 & E1 & _).
  destruct (quiet_notifications (obtainToken P config) w (quiet_obtainToken P config))
    as [Q1 [F1 T1]].
  rewrite E1 in Q1, F1, T1 |- *. cbn [snd] in Q1, F1, T1.
  destruct (logger_run Info "Checking for updated repositories" w1)
    as (w2 & E2 & F2 & T2 & N2 & _).
  rewrite E2. rewrite app_nil_r in N2.
  assert (S2 : stored w2 = stored w) by (unfold stored; rewrite F2, F1; reflexivity).
  assert (L2 : loadedCache P w2 = loadedCache P w)
    by (unfold loadedCache; rewrite S2; reflexivity).
  assert (C2 : canWrite (fs w2) = canWrite (fs w)) by (rewrite F2, F1; reflexivity).
  assert (Q2 : notifications w2 = notifications w)
    by (unfold notifications in *; rewrite N2; exact Q1).
  assert (K2 : transporterCache w2 = transporterCache w) by congruence.
  destruct (getCache_run w2) as (r3 & w3 & E3 & N3 & T3 & H3). rewrite E3.
  assert (Q3 : notifications w3 = notifications w)
    by (unfold notifications in *; rewrite N3; exact Q2).
  assert (K3 : transporterCache w3 = transporterCache w) by congruence.
  destruct H3 as [(-> & C3 & Hfs) | ((code & ->) & Hc & S3)].
  2: { eexists _, w3. split; [reflexivity|]. rewrite <- C2, Hc. cbn [andb].
       split; [eauto|]. split; [congruence|]. split; assumption. }
  rewrite L2. remember (loadedCache P w) as loaded eqn:Hl.
  destruct (checkAll_run services loaded (tokenOutcome P config) w3)
    as (r4 & w4 & E4 & [F4 T4] & Q4 & H4).
  rewrite E4.
  assert (Knull : loaded = JsonNull -> fs w3 = fs w2).
  { intros Hnull. destruct Hfs as [Hfs|[Hnone _]]; [exact Hfs|].
    rewrite S2 in Hnone. rewrite Hl in Hnull. unfold loadedCache in Hnull.
    rewrite Hnone in Hnull. discriminate. }
  destruct (readable loaded services) eqn:Hr.
  - subst r4. rewrite omap_id_map, andb_true_r.
    fold (cycleResults P config services (entriesOf loaded)).
    unfold cycleState, cycleUpdates.
    destruct (processResults ∅ [] (cycleResults P config services (entriesOf loaded)))
      as [newCache updatedRepos]. cbn [fst snd].
    destruct (writeCache_run P newCache w4) as (r5 & w5 & E5 & L5 & N5 & T5 & H5).
    rewrite E5.
    assert (C4 : canWrite (fs w4) = canWrite (fs w)) by (rewrite F4, C3, C2; reflexivity).
    rewrite C4 in H5.
    assert (Q5 : notifications w5 = notifications w)
      by (unfold notifications in *; rewrite N5, Q4; exact Q3).
    destruct (canWrite (fs w)) eqn:Hc.
    + destruct H5 as (-> & S5 & C5).
      destruct (notifyPhase_run config updatedRepos w5) as (w6 & E6 & F6 & Q6).
      exists (Ok tt), w6. split; [exact E6|]. split; [reflexivity|].
      split; [unfold stored; rewrite F6; exact S5|].
      split; [rewrite F6; exact C5|].
      intros Hu. rewrite (Q6 Hu). exact Q5.
    + destruct H5 as ((code' & ->) & S5 & C5).
      eexists _, w5. split; [reflexivity|]. split; [eauto|].
      split; [|split; [exact Q5 | congruence]].
      rewrite S5. unfold stored. rewrite F4.
      destruct Hfs as [Hfs|[_ Hw]]; [rewrite Hfs; exact S2|].
      rewrite C2 in Hw. discriminate.
  - destruct H4 as (e & ->). rewrite andb_false_r.
    eexists _, w4. split; [reflexivity|]. split; [eauto|].
    assert (Hnull : loaded = JsonNull).
    { destruct loaded; [discriminate Hr | reflexivity | discriminate Hr]. }
    split; [|split; [unfold notifications in *; rewrite Q4; exact Q3 | congruence]].
    unfold stored. rewrite F4, (Knull Hnull). exact S2.
Qed.

Lemma cycleUpdates_none config services currentCache :
  (forall r, r ∈ cycleResults P config services currentCache -> result_updated r = false) ->
  cycleUpdates P config services currentCache = [].
Proof.
  intros H. unfold cycleUpdates. apply processResults_none_updated. exact H.
Qed.

Lemma cycleResults_elem config services currentCache r :
  r ∈ cycleResults P config services currentCache
  <-> exists service lastUpdated,
        service ∈ services
        /\ fetchLastUpdated P (job_image service) (tokenOutcome P config) = Some lastUpdated
        /\ r = checkResult P service
                 (currentCache !! getCacheKey (job_image service)) lastUpdated.
Proof.
  unfold cycleResults. rewrite list_elem_of_omap. unfold checkOutcome. split.
  - intros (service & Hs & Hr).
    destruct (fetchLastUpdated P (job_image service) (tokenOutcome P config)) as [lu|] eqn:Hf;
      [|discriminate].
    cbn in Hr. injection Hr as <-. exists service, lu. auto.
  - intros (service & lu & Hs & Hf & ->). exists service. rewrite Hf. auto.
Qed.




(** X12. A cycle that loads no entry (there is no state file, or it holds
    [{}], text that does not parse, or a value that is not an object) sends
    no notification, whatever the registry answers and whether or not the
    cycle completes. When the state file can be written and the loaded value
    is not [null], the cycle completes and records the baseline. *)
Theorem first_cycle_sends_nothing (config : Config)
    (services : list ParsedNotifyService) (w : World) :
  entriesOf (loadedCache P w) = ∅ ->
  exists r w',
    checkForUpdates P config services w = (r, w')
    /\ notifications w' = notifications w
    /\ (canWrite (fs w) = true -> loadedCache P w <> JsonNull ->
        r = Ok tt
        /\ stored w' = Some (JSON_stringify P (cycleState P config services ∅))).
Proof.
  intros Hl. destruct (checkForUpdates_run config services w) as (r & w' & E & H).
  cbn zeta in H. rewrite Hl in H. exists r, w'. split; [exact E|].
  assert (Hu : cycleUpdates P config services ∅ = []).
  { apply cycleUpdates_none. intros r0 Hr.
    apply cycleResults_elem in Hr as (service & lu & _ & _ & ->).
    cbn [checkResult result_updated]. rewrite lookup_empty. reflexivity. }
  split.
  - destruct (canWrite (fs w) && readable (loadedCache P w) services).
    + destruct H as (_ & _ & _ & Hq). exact (Hq Hu).
    + apply H.
  - intros Hc Hn. rewrite Hc in H.
    assert (Hr : readable (loadedCache P w) services = true).
    { destruct (loadedCache P w); [reflexivity | contradiction | reflexivity]. }
    rewrite Hr in H. destruct H as (-> & S & _). auto.
Qed.

End Cycles.



(** A state file that holds [null] parses, to a value that is not a mapping:
    the load returns it without a warning, and the cycle throws when it reads
    the entry of the first service. *)
Example null_state_file :
  Demo.parse "null" = Some JsonNull
  /\ getCache Demo.registry (Demo.worldWithFile "null")
     = (Ok JsonNull, Demo.worldWithFile "null")
  /\ fst (checkForUpdates Demo.registry Demo.config Demo.jobs (Demo.worldWithFile "null"))
     = Throw (TypeError "Cannot read properties of null (reading 'library/nginx')")
  /\ stored (snd (checkForUpdates Demo.registry Demo.config Demo.jobs
                    (Demo.worldWithFile "null"))) = Some "null".
Proof. repeat split; vm_compute; reflexivity. Qed.

Lemma first_cycle_sends_nothing_witness :
  exists w',
    checkForUpdates Demo.registry Demo.config Demo.jobs Demo.emptyWorld = (Ok tt, w')
    /\ notifications w' = [].
Proof.
  destruct (first_cycle_sends_nothing Demo.registry Demo.config Demo.jobs Demo.emptyWorld
              eq_refl) as (r & w' & E & Q & H).
  destruct (H eq_refl ltac:(discriminate)) as (-> & _).
  exists w'. split; [exact E | exact Q].
Defined.

Section SteadyState.

Variable P : Platform.







End SteadyState.


(** ** Isolation of the checks *)

(** X14. The checks of a cycle are isolated from one another: the result for
    a service is the same wherever the service stands in the list and
    whatever the other services are, including services whose check fails;
    there is one result per service, in the order of the services. *)
Theorem checkAll_isolated (P : Platform) (services1 services2 : list ParsedNotifyService)
    (currentCache : gmap string CacheEntry) (token : option string) (w1 w2 : World)
    (i j : nat) (service : ParsedNotifyService) :
  services1 !! i = Some service ->
  services2 !! j = Some service ->
  exists results1 results2 w1' w2',
    checkAll P services1 currentCache token w1 = (Ok results1, w1')
    /\ checkAll P services2 currentCache token w2 = (Ok results2, w2')
    /\ length results1 = length services1
    /\ length results2 = length services2
    /\ results1 !! i = results2 !! j
    /\ is_Some (results1 !! i).
Proof.
  intros H1 H2.
  destruct (checkAll_outcome P services1 (Mapping currentCache) token w1
              ltac:(discriminate)) as (w1' & _ & _ & E1 & _).
  destruct (checkAll_outcome P services2 (Mapping currentCache) token w2
              ltac:(discriminate)) as (w2' & _ & _ & E2 & _).
  eexists _, _, w1', w2'. split; [exact E1|]. split; [exact E2|].
  rewrite !length_map. split; [reflexivity|]. split; [reflexivity|].
  rewrite !list_lookup_fmap, H1, H2. split; [reflexivity | eauto].
Qed.

Lemma checkAll_isolated_witness :
  exists results1 results2 w1' w2',
    checkAll Demo.registry Demo.jobs Demo.previous None Demo.emptyWorld = (Ok results1, w1')
    /\ checkAll Demo.registry [Demo.missingJob; Demo.nginxJob] Demo.previous None
         Demo.emptyWorld = (Ok results2, w2')
    /\ results1 !! 0%nat = results2 !! 1%nat.
Proof.
  destruct (checkAll_isolated Demo.registry Demo.jobs [Demo.missingJob; Demo.nginxJob]
              Demo.previous None Demo.emptyWorld Demo.emptyWorld 0 1 Demo.nginxJob
              eq_refl eq_refl)
    as (r1 & r2 & w1' & w2' & E1 & E2 & _ & _ & H & _).
  exists r1, r2, w1', w2'. split; [exact E1|]. split; [exact E2 | exact H].
Defined.

(** ** Looking up a tag *)

(** X15. For an image with a tag, the tag is looked up by exact name in the
    tags of all pages, in page order, and the first match gives the
    timestamp; when no fetched tag has that name the check returns null
    without throwing. *)
Theorem checkRepository_tag_lookup (P : Platform) (job : ParsedNotifyService)
    (cacheEntry : option CacheEntry) (token : option string) (w : World)
    (tag : string) (tags : list TagInfo) :
  image_tag (job_image job) = Some tag ->
  tag <> EmptyString ->
  tagsOutcome P dockerAPI
    (tagsPath (image_user (job_image job)) (image_name (job_image job))) token
    = Ok tags ->
  exists r w',
    checkRepository P job cacheEntry token w = (Ok r, w')
    /\ ((forall t, t ∈ tags -> tag_name t <> tag) -> r = None)
    /\ (forall before t after,
          tags = before ++ t :: after ->
          (forall t', t' ∈ before -> tag_name t' <> tag) ->
          tag_name t = tag ->
          r = Some (checkResult P job cacheEntry (tag_last_updated t))).
Proof.
  intros Htag Hne Htags.
  destruct (checkRepository_outcome P job cacheEntry token w) as (w' & _ & _ & E & _).
  eexists _, w'. split; [exact E|].
  unfold fetchLastUpdated. rewrite Htag. destruct tag as [|c tag]; [contradiction|].
  cbn [truthy]. rewrite Htags.
  assert (Hnone : forall l : list TagInfo,
             (forall t, t ∈ l -> tag_name t <> String c tag) ->
             find (fun t => bool_decide (Some (tag_name t) = Some (String c tag))) l = None).
  { induction l as [|x l IH]; intros H; [reflexivity|]. simpl.
    rewrite bool_decide_eq_false_2.
    - apply IH. intros t Ht. apply H. apply elem_of_cons. auto.
    - intros [= Hx]. exact (H x ltac:(apply elem_of_cons; auto) Hx). }
  split.
  - intros H. rewrite (Hnone tags H). reflexivity.
  - intros before t after -> Hb Ht.
    assert (Hfind : find (fun t0 => bool_decide (Some (tag_name t0) = Some (String c tag)))
                      (before ++ t :: after) = Some t).
    { clear Htags. induction before as [|x before IH]; simpl.
      - rewrite bool_decide_eq_true_2 by (rewrite Ht; reflexivity). reflexivity.
      - rewrite bool_decide_eq_false_2.
        + apply IH. intros t' Ht'. apply Hb. apply elem_of_cons. auto.
        + intros [= Hx]. exact (Hb x ltac:(apply elem_of_cons; auto) Hx). }
    rewrite Hfind. reflexivity.
Qed.

Lemma checkRepository_tag_lookup_witness :
  exists w',
    checkRepository Demo.registry Demo.redisJob None None Demo.emptyWorld
    = (Ok (Some (checkResult Demo.registry Demo.redisJob None Demo.t1)), w').
Proof.
  destruct (checkRepository_tag_lookup Demo.registry Demo.redisJob None None
              Demo.emptyWorld "latest"
              (Demo.tagsPage "7" 100 ++ Demo.tagsPage "latest" 50)
              eq_refl ltac:(discriminate) ltac:(vm_compute; reflexivity))
    as (r & w' & E & _ & H).
  exists w'. rewrite E. f_equal. f_equal.
  apply (H (Demo.tagsPage "7" 100) {| tag_name := "latest"; tag_last_updated := Demo.t1 |}
           (Demo.tagsPage "latest" 49)); [reflexivity| |reflexivity].
  intros t' Ht'. apply elem_of_replicate in Ht' as [-> _]. discriminate.
Defined.

(** ** Registering handlers *)

(** X16. Registering a handler makes it the handler of its kind, in place of
    any handler registered for that kind before (a built-in one included),
    and leaves the other kinds as they were; dispatching an action of that
    kind then runs that handler's [execute] and nothing else, so that what
    it returns or throws is what the dispatch returns or throws. *)
Theorem register_then_dispatch (this : ActionRegistry) (handler : ActionHandler)
    (action : Action) (updateInfo : UpdateInfo) (config : Config) (w : World) :
  getHandler (register this handler) (handler_type handler) = Some handler
  /\ (forall type, type <> handler_type handler ->
        getHandler (register this handler) type = getHandler this type)
  /\ (action_type action = handler_type handler ->
      executeAction (register this handler) action updateInfo config w
      = execute handler action updateInfo config w).
Proof.
  unfold getHandler, register. cbn [handlers]. split; [apply lookup_insert_eq|]. split.
  - intros type Hne. apply lookup_insert_ne. congruence.
  - intros Ht. unfold executeAction, getHandler. cbn [handlers].
    rewrite Ht, lookup_insert_eq. reflexivity.
Qed.

Lemma register_then_dispatch_witness :
  executeAction
    (register (actionRegistry Demo.registry)
       {| handler_type := "webHook";
          execute := fun _ _ _ => throw (Error "boom");
          validateInstance := fun _ _ => true |})
    Demo.hookAction dollarUpdate Demo.config Demo.emptyWorld
  = (Throw (Error "boom"), Demo.emptyWorld).
Proof.
  destruct (register_then_dispatch (actionRegistry Demo.registry)
              {| handler_type := "webHook";
                 execute := fun _ _ _ => throw (Error "boom");
                 validateInstance := fun _ _ => true |}
              Demo.hookAction dollarUpdate Demo.config Demo.emptyWorld) as (_ & _ & H).
  rewrite (H eq_refl). reflexivity.
Defined.

(** ** Loading the configuration *)

(** X17. [config.jsonc] takes precedence and there is no falling back: when
    it can be read, [config.json] is not looked at. The parser of
    [config.jsonc] returns a value for every text, so the outcome is then
    decided by the validation alone: the configuration is loaded, or the
    process ends with status 2, even if [config.json] holds a valid
    configuration; status 1 is not possible. [config.json] is used only when
    [config.jsonc] cannot be read: a text that [JSON.parse] rejects ends the
    process with status 1, one that fails validation with status 2. Status 1
    is also the outcome when neither file can be read. *)
Theorem loadConfig_precedence (Raw : Type) (parseJsonc : string -> Raw)
    (JSON_parse_raw : string -> result Raw)
    (safeParse : Raw -> option Config) (content : string) (json : option string)
    (w : World) :
  let load := loadConfig Raw parseJsonc JSON_parse_raw safeParse in
  let validated raw :=
    match safeParse raw with
    | Some data => Started data
    | None => Exit 2
    end in
  load (Some content) json w = load (Some content) None w
  /\ fst (load (Some content) json w) = validated (parseJsonc content)
  /\ fst (load (Some content) json w) <> Exit 1
  /\ fst (load None None w) = Exit 1
  /\ (is_ok (JSON_parse_raw content) = false ->
      fst (load None (Some content) w) = Exit 1)
  /\ (forall raw, JSON_parse_raw content = Ok raw ->
        fst (load None (Some content) w) = validated raw).
Proof.
  cbn zeta. unfold loadConfig. split; [reflexivity|]. split; [|split; [|split; [|split]]].
  - destruct (safeParse (parseJsonc content)); reflexivity.
  - destruct (safeParse (parseJsonc content)); discriminate.
  - reflexivity.
  - destruct (JSON_parse_raw content); [discriminate | reflexivity].
  - intros raw ->. destruct (safeParse raw); reflexivity.
Qed.

(** ** Persisting before notifying *)


(** ** Further runs on the concrete platform *)

Lemma getTransporter_reuses_witness :
  exists w1,
    getTransporter "relay" Demo.relay Demo.emptyWorld
    = (Ok (createTransport Demo.relay), w1)
    /\ getTransporter "relay"
         {| smtp_host := "mail.example.com"; smtp_port := 587; smtp_secure := false;
            sendername := "Docker Notify"; senderadress := "notify@example.com";
            smtp_username := None; smtp_password := None |} w1
       = (Ok (createTransport Demo.relay), w1).
Proof.
  destruct (getTransporter_reuses "relay" Demo.relay
              {| smtp_host := "mail.example.com"; smtp_port := 587; smtp_secure := false;
                 sendername := "Docker Notify"; senderadress := "notify@example.com";
                 smtp_username := None; smtp_password := None |} Demo.emptyWorld)
    as (transporter & w1 & E & Hnew & Hreuse & _).
  rewrite (Hnew eq_refl) in E, Hreuse. exists w1. split; [exact E | exact Hreuse].
Defined.

Lemma webhook_execute_request_witness :
  exists w' request,
    webhook_execute Demo.offline Demo.hookAction
      {| imageName := "nginx"; imageUrl := "https://hub.docker.com/r/_/nginx/tags";
         info_lastUpdated := Demo.t1 |}
      {| dockerHubUsername := None; dockerHubPassword := None; checkInterval := 60;
         notifyServices := [];
         smtpServer := None;
         webHooks := Some {[ "chat" := Demo.textHook ]} |}
      Demo.emptyWorld = (Ok tt, w')
    /\ net w' = [HttpHook request]
    /\ hook_json request = None
    /\ hook_body request
       = Some ("Update: Docker image 'nginx' was updated:" +:+ newline
               +:+ "https://hub.docker.com/r/_/nginx/tags")
    /\ hook_headers request = [("X-Token", "secret")].
Proof.
  destruct (webhook_execute_request Demo.offline Demo.hookAction
              {| imageName := "nginx"; imageUrl := "https://hub.docker.com/r/_/nginx/tags";
                 info_lastUpdated := Demo.t1 |}
              {| dockerHubUsername := None; dockerHubPassword := None; checkInterval := 60;
                 notifyServices := [];
                 smtpServer := None;
                 webHooks := Some {[ "chat" := Demo.textHook ]} |}
              Demo.emptyWorld) as (w' & E & H & _).
  destruct (H Demo.textHook eq_refl)
    as (request & N & _ & _ & _ & _ & _ & _ & Htext & Hh & _).
  exists w', request. split; [exact E|]. split; [exact N|].
  destruct (Htext "Update: $msg" eq_refl ltac:(discriminate)) as [Hb Hj].
  split; [exact Hj|]. split; [exact Hb|]. exact (Hh _ eq_refl).
Defined.

(** A fault-tolerant parser as [config.jsonc] is read with: the text [{]
    gives an empty object, which the validation turns down. *)
Lemma loadConfig_precedence_witness :
  fst (loadConfig string
         (fun s => if String.eqb s "{" then "{}" else s)
         (fun s => if String.eqb s "{" then Throw SyntaxError else Ok s)
         (fun raw => if String.eqb raw "{}" then None else Some Demo.config)
         (Some "{") (Some "{ valid }") Demo.emptyWorld) = Exit 2
  /\ fst (loadConfig string
            (fun s => if String.eqb s "{" then "{}" else s)
            (fun s => if String.eqb s "{" then Throw SyntaxError else Ok s)
            (fun raw => if String.eqb raw "{}" then None else Some Demo.config)
            None (Some "{") Demo.emptyWorld) = Exit 1
  /\ fst (loadConfig string
            (fun s => if String.eqb s "{" then "{}" else s)
            (fun s => if String.eqb s "{" then Throw SyntaxError else Ok s)
            (fun raw => if String.eqb raw "{}" then None else Some Demo.config)
            None (Some "{ valid }") Demo.emptyWorld) = Started Demo.config.
Proof.
  split; [|split].
  - destruct (loadConfig_precedence string
                (fun s => if String.eqb s "{" then "{}" else s)
                (fun s => if String.eqb s "{" then Throw SyntaxError else Ok s)
                (fun raw => if String.eqb raw "{}" then None else Some Demo.config)
                "{" (Some "{ valid }") Demo.emptyWorld) as (_ & H & _).
    exact H.
  - destruct (loadConfig_precedence string
                (fun s => if String.eqb s "{" then "{}" else s)
                (fun s => if String.eqb s "{" then Throw SyntaxError else Ok s)
                (fun raw => if String.eqb raw "{}" then None else Some Demo.config)
                "{" None Demo.emptyWorld) as (_ & _ & _ & _ & H & _).
    apply H. reflexivity.
  - destruct (loadConfig_precedence string
                (fun s => if String.eqb s "{" then "{}" else s)
                (fun s => if String.eqb s "{" then Throw SyntaxError else Ok s)
                (fun raw => if String.eqb raw "{}" then None else Some Demo.config)
                "{ valid }" None Demo.emptyWorld) as (_ & _ & _ & _ & _ & H).
    apply (H "{ valid }"). reflexivity.
Defined.

